(** * A shallow embedding of the tetris blockMesh wrapper

    Two layers of the repository are modelled:
    - [Elements]: the value-level classes of [src/tetris/elements.py] and the
      helpers of [src/tetris/utils.py] they call (collinearity test, edge
      simplification, cell counts from a target size);
    - [BlockMesh]: the object graph of [src/tetris/blockmesh/*.py] and the
      registry [src/tetris/mesh.py], with Python's reference semantics made
      explicit as a heap of objects and a state/exception monad.

    Floating-point coordinates are modelled by rationals; every concrete
    input used below has small integral coordinates, on which IEEE
    arithmetic is exact. *)

From Stdlib Require Import ZArith QArith Qround List String Bool Lia Lqa.
From stdpp Require Import base gmap list strings.
Import ListNotations.



(** Python exceptions raised by the modelled code. *)
Inductive exc :=
| TypeError (msg : string)
| ValueError (msg : string)
| AttributeError (msg : string)
| NameError (name : string)
| IndexError (msg : string)
| OverflowError (msg : string).

(** The exceptions [exc] does not list, raised by a dict lookup and by the
    operators of [elements.Vertex], beside those of [exc]. *)
Inductive raised :=
| KeyError (key : string)
| ArithmeticError (msg : string)
| Raised (e : exc).

(** Three floating-point coordinates. *)
Record vec3 := Vec3 { vx : Q; vy : Q; vz : Q }.

Definition vec_add (a b : vec3) : vec3 :=
  Vec3 (vx a + vx b) (vy a + vy b) (vz a + vz b).
Definition vec_neg (a : vec3) : vec3 := Vec3 (- vx a) (- vy a) (- vz a).
Definition vec_row (a : vec3) : list Q := [vx a; vy a; vz a].
(** Element-wise [==] of two coordinate arrays, reduced by [all]. *)
Definition vec_eqb (a b : vec3) : bool :=
  Qeq_bool (vx a) (vx b) && Qeq_bool (vy a) (vy b) && Qeq_bool (vz a) (vz b).

(** [numpy.cross] of two 3-vectors. *)
Definition np_cross (a b : vec3) : vec3 :=
  Vec3 (vy a * vz b - vz a * vy b)
       (vz a * vx b - vx a * vz b)
       (vx a * vy b - vy a * vx b).

(** [ndarray.sum] of a 3-vector. *)
Definition np_sum (a : vec3) : Q := vx a + vy a + vz a.

(** Python slicing [xs[start:stop]] with negative indices counted from the
    end and out-of-range bounds clamped. *)
Definition py_index_norm (n i : Z) : Z :=
  if (i <? 0)%Z then Z.max 0 (i + n) else Z.min i n.

Definition py_slice {A} (xs : list A) (start stop : Z) : list A :=
  let n := Z.of_nat (length xs) in
  let s := py_index_norm n start in
  let e := py_index_norm n stop in
  firstn (Z.to_nat (e - s)) (skipn (Z.to_nat s) xs).

(** Python's [zip] of three iterables. *)
Fixpoint zip3 {A} (xs ys zs : list A) : list (A * A * A) :=
  match xs, ys, zs with
  | x :: xs', y :: ys', z :: zs' => (x, y, z) :: zip3 xs' ys' zs'
  | _, _, _ => []
  end.

(** [numpy.delete(arr, idx, axis=0)]: the rows whose index is not listed. *)
Definition np_delete {A} (xs : list A) (idx : list nat) : list A :=
  map snd (filter (fun p => negb (existsb (Nat.eqb (fst p)) idx))
                  (combine (seq 0 (length xs)) xs)).

Module Elements.

(** [tetris.elements.Vertex]: coordinates and a mesh identity. *)
Record Vertex := mkVertex { coords : vec3; vertex_id : Z }.

(** [tetris.elements.Edge]; [points] is the stored numpy array, row by row. *)
Record Edge := mkEdge {
  v0 : Vertex;
  v1 : Vertex;
  points : list (list Q);
  type : option string;
  edge_id : Z
}.

(** An operand of the arithmetic in [utils.is_collinear]: either a [Vertex]
    or a bare numpy array. *)
Inductive operand :=
| VertexArg (c : vec3)
| ArrayArg (r : list Q).

(** [a - b]: [Vertex.__sub__] for a [Vertex] on the left (its [Vertex] and
    [ndarray] branches), numpy's element-wise subtraction otherwise. *)
Definition op_sub (a b : operand) : exc + operand :=
  match a, b with
  | VertexArg c, VertexArg d => inr (VertexArg (vec_add c (vec_neg d)))
  | VertexArg c, ArrayArg [x; y; z] =>
      inr (VertexArg (vec_add c (vec_neg (Vec3 x y z))))
  | VertexArg _, ArrayArg _ =>
      inl (ValueError "operands could not be broadcast together")
  | ArrayArg r, VertexArg d => inr (ArrayArg (zip_with Qminus r (vec_row d)))
  | ArrayArg r, ArrayArg s => inr (ArrayArg (zip_with Qminus r s))
  end.

(** The attribute access [.coords]: numpy arrays have no such attribute. *)
Definition coords_attr (a : operand) : exc + vec3 :=
  match a with
  | VertexArg c => inr c
  | ArrayArg _ =>
      inl (AttributeError "'numpy.ndarray' object has no attribute 'coords'")
  end.

(** [utils.is_collinear]:
<<
    a = (v0 - v1).coords
    b = (v0 - v2).coords
    return np.cross(a, b).sum() == 0
>> *)
Definition is_collinear (p0 p1 p2 : operand) : exc + bool :=
  match op_sub p0 p1 with
  | inl e => inl e
  | inr d1 =>
    match coords_attr d1 with
    | inl e => inl e
    | inr a =>
      match op_sub p0 p2 with
      | inl e => inl e
      | inr d2 =>
        match coords_attr d2 with
        | inl e => inl e
        | inr b => inr (Qeq_bool (np_sum (np_cross a b)) 0)
        end
      end
    end
  end.

(** The collinearity scan of the [points] setter:
<<
    for i, (v0, v1, v2) in enumerate(zip(...)):
        if is_collinear(v0, v1, v2):
            to_delete.append(i + 1)
>> *)
Fixpoint scan_collinear (i : nat) (triples : list (list Q * list Q * list Q))
    (to_delete : list nat) : exc + list nat :=
  match triples with
  | [] => inr to_delete
  | (a, b, c) :: rest =>
      match is_collinear (ArrayArg a) (ArrayArg b) (ArrayArg c) with
      | inl e => inl e
      | inr true => scan_collinear (S i) rest (to_delete ++ [S i])
      | inr false => scan_collinear (S i) rest to_delete
      end
  end.

(** [np.array(points).size], [.shape[-1]] and raggedness of a 2-D list. *)
Definition np_size (rows : list (list Q)) : nat := sum_list_with List.length rows.
Definition np_ragged (rows : list (list Q)) : bool :=
  match rows with
  | [] => false
  | r :: rest => negb (forallb (fun s => Nat.eqb (List.length s) (List.length r)) rest)
  end.
Definition np_last_dim (rows : list (list Q)) : nat :=
  match rows with [] => 0 | r :: _ => List.length r end.

(** The [Edge.points] setter. It mutates the edge in place, so it is a state
    transformer on the edge that may raise. *)
Definition set_points (pts : list (list Q)) (e : Edge) : Edge * option exc :=
  (* self.__points = np.array(points, dtype="float64") *)
  if np_ragged pts then
    (e, Some (ValueError "setting an array element with a sequence"))
  else
  let e := {| v0 := v0 e; v1 := v1 e; points := pts; type := type e;
              edge_id := edge_id e |} in
  if np_size pts =? 0 then
    ({| v0 := v0 e; v1 := v1 e; points := pts; type := None;
        edge_id := edge_id e |}, None)
  else if negb (np_last_dim pts =? 3) then
    (e, Some (TypeError "Incorrect points list. Please see the docstrings for more information on how to define the points list."))
  else
  let points := [vec_row (coords (v0 e))] ++ pts ++ [vec_row (coords (v1 e))] in
  match scan_collinear 0
          (zip3 (py_slice points 0 (-2)) (py_slice points 1 (-1))
                (py_slice points 2 (-0))) [] with
  | inl ex => (e, Some ex)
  | inr to_delete =>
      (* np.delete(points, to_delete, axis=0) -- result not kept *)
      let _ := np_delete points to_delete in
      let stored := py_slice points 1 (-1) in
      ({| v0 := v0 e; v1 := v1 e; points := stored;
          type := if np_size stored =? 0 then None else type e;
          edge_id := edge_id e |}, None)
  end.

(** Names bound in the module [tetris.utils] at run time. The import of
    [Vector] and [Vertex] sits under [if TYPE_CHECKING:], which is false
    when the program runs. *)
Definition TYPE_CHECKING : bool := false.

Definition utils_globals : list string :=
  ["annotations"; "TYPE_CHECKING"; "Union"; "np"; "NDArray"]
  ++ (if TYPE_CHECKING then ["Vector"; "Vertex"] else [])
  ++ ["normL2"; "unit_vector"; "unit_normal_vector"; "rotation3D";
      "distance"; "is_collinear"; "ncells_simple"; "vertex_or_array"].

Definition builtins : list string :=
  ["isinstance"; "int"; "float"; "list"; "tuple"; "len"; "print"].

(** Resolution of a free name inside a function of [tetris.utils]. *)
Definition utils_lookup (name : string) : exc + unit :=
  if existsb (String.eqb name) (utils_globals ++ builtins) then inr tt
  else inl (NameError name).

Section Float.
(** The floating-point square root used by [numpy.linalg.norm]. *)
Variable sqrt : Q -> Q.

(** [utils.normL2] on a vector. *)
Definition normL2 (a : vec3) : Q :=
  sqrt (vx a * vx a + vy a * vy a + vz a * vz a).

(** [utils.distance] applied to two [Vertex] instances:
<<
    p1 = point1.coords if isinstance(point1, Vertex) else np.array(point1)
    p2 = point2.coords if isinstance(point2, Vertex) else np.array(point2)
    return normL2(p1 + p2)
>> *)
Definition distance (point1 point2 : Vertex) : exc + Q :=
  match utils_lookup "isinstance" with
  | inl e => inl e
  | inr _ =>
    match utils_lookup "Vertex" with
    | inl e => inl e
    | inr _ => inr (normL2 (vec_add (coords point1) (coords point2)))
    end
  end.
End Float.

(** [utils.ncells_simple]: [int(np.ceil(edge_length / cell_size))]; a zero
    cell size gives an infinite quotient and [int] overflows. *)
Definition ncells_simple (cell_size edge_length : Q) : exc + Z :=
  if Qeq_bool cell_size 0 then
    inl (OverflowError "cannot convert float infinity to integer")
  else inr (Qceiling (edge_length / cell_size)).

(** Sequencing of fallible computations. *)
Definition sbind {A B} (m : exc + A) (k : A -> exc + B) : exc + B :=
  match m with inl e => inl e | inr a => k a end.

(** Python indexing [xs[i]] of a list or tuple. *)
Definition py_getitem {A} (xs : list A) (i : Z) : exc + A :=
  let n := Z.of_nat (length xs) in
  let j := if (i <? 0)%Z then (i + n)%Z else i in
  if ((j <? 0) || (n <=? j))%Z then inl (IndexError "list index out of range")
  else match nth_error xs (Z.to_nat j) with
       | Some a => inr a
       | None => inl (IndexError "list index out of range")
       end.

(** [Block.EDGES_ON_AXIS] of [tetris.elements]. *)
Definition EDGES_ON_AXIS : list (list (Z * Z)) :=
  [ [(0, 1); (2, 3); (6, 7); (4, 5)];
    [(0, 3); (1, 2); (5, 6); (4, 7)];
    [(0, 4); (1, 5); (2, 6); (3, 7)] ]%Z.

(** [tetris.elements.Block]. *)
Record Block := mkBlock {
  vertices : list Vertex;
  edges : list Edge;
  grading : list Q;
  grading_type : string;
  ncells : list Z;
  cellZone : string;
  description : string;
  block_id : Z
}.

Definition set_ncells (b : Block) (n : list Z) : Block :=
  {| vertices := vertices b; edges := edges b; grading := grading b;
     grading_type := grading_type b; ncells := n; cellZone := cellZone b;
     description := description b; block_id := block_id b |}.

Section CellSize.
Variable sqrt : Q -> Q.

(** One entry of the uniform branch: [ncells_simple(value, distance(a, b))]. *)
Definition ncells_between (b : Block) (value : Q) (i j : Z) : exc + Z :=
  sbind (py_getitem (vertices b) i) (fun p =>
  sbind (py_getitem (vertices b) j) (fun q =>
  sbind (distance sqrt p q) (fun d =>
  ncells_simple value d))).

(** [Block.set_cell_size(value)], i.e. the call with [axis=None] that sets
    all three cell counts:
<<
    self.ncells = np.array([
        ncells_simple(value, distance(self.vertices[0], self.vertices[1])),
        ncells_simple(value, distance(self.vertices[0], self.vertices[3])),
        ncells_simple(value, distance(self.vertices[0], self.vertices[4])),
    ])
>> *)
Definition set_cell_size (b : Block) (value : Q) : Block * option exc :=
  match sbind (ncells_between b value 0 1) (fun n0 =>
        sbind (ncells_between b value 0 3) (fun n1 =>
        sbind (ncells_between b value 0 4) (fun n2 =>
        inr [n0; n1; n2]))) with
  | inl e => (b, Some e)
  | inr n => (set_ncells b n, None)
  end.
End CellSize.

End Elements.

Module BlockMesh.

(** Object references: every Python object of the object graph lives at a
    location of the heap. *)
Definition loc := nat.

(** Python values passed to the registry and to the setters. *)
#[local] Set Warnings "-register-all".
Inductive pyval :=
| PyRef (l : loc)
| PyInt (n : Z)
| PyFloat (q : Q)
| PyStr (s : string)
| PyNone
| PyList (xs : list pyval)
| PyTuple (xs : list pyval).

(** The three point-sequence edge classes differ only by their [type]. *)
Inductive seq_kind := Spline | BSpline | PolyLine.

(** The data of each concrete [Edge] subclass of [blockmesh/edge.py]. *)
Inductive edge_data :=
| LineEdge
| ArcMidEdge (point : vec3)
| ArcOriginEdge (origin : vec3) (factor : Q)
| SequenceEdge (kind : seq_kind) (points : list vec3)
| ProjectEdge (surfaces : list loc).

(** The [type] property of each edge class. *)
Definition edge_type (d : edge_data) : string :=
  match d with
  | LineEdge => "line"
  | ArcMidEdge _ | ArcOriginEdge _ _ => "arc"
  | SequenceEdge Spline _ => "spline"
  | SequenceEdge BSpline _ => "BSpline"
  | SequenceEdge PolyLine _ => "polyLine"
  | ProjectEdge _ => "project"
  end.

Record edge := mkEdge { v0 : loc; v1 : loc; data : edge_data }.

(** [blockmesh.block.Block]; [grading_type] is the private
    [__grading_type]. *)
Record block := mkBlock {
  vertices : list loc;
  edges : list loc;
  grading : pyval;
  grading_type : string;
  ncells : pyval;
  cellZone : string;
  description : string
}.

Record patch := mkPatch { name : string; ptype : pyval; faces : pyval }.

(** The classes of the object graph. *)
Inductive obj :=
| Vertex (coords : vec3)
| ProjectVertex (coords : vec3) (geometries : list loc)
| Edge (e : edge)
| Block (b : block)
| Patch (p : patch)
| DefaultPatch (pname : string) (dtype : pyval)
| PatchPair (master slave : pyval)
| Face (fvertices : list loc) (geometry : loc)
| TriSurfaceMesh (gname file : string).

(** A heap cell: the object and its [id] attribute. [BlockMeshElement]'s
    [__init_subclass__] sets the class attribute [id = -1], so a new
    instance reads [-1] until the mesh assigns it an instance attribute. *)
Record cell := mkCell { obj_of : obj; id : Z }.

(** [tetris.mesh.Mesh]; [ids_*] are the entries of the [ids] dict. *)
Record mesh := mkMesh {
  ids_vertex : Z;
  ids_block : Z;
  ids_patch : Z;
  ids_edge : Z;
  scale : Z;
  geometries : list loc;
  mesh_vertices : list loc;
  blocks : list loc;
  mesh_edges : list loc;
  mesh_faces : list loc;
  patches : list loc;
  merge_patch_pairs : list loc
}.

(** [Mesh.__init__]. *)
Definition new_mesh : mesh :=
  mkMesh 0 0 0 0 1 [] [] [] [] [] [] [].

Record world := mkWorld { heap : gmap loc cell; the_mesh : mesh }.

(** ** A state and exception monad over the world *)

Definition M (A : Type) : Type := world -> world * (exc + A).

Definition ret {A} (a : A) : M A := fun w => (w, inr a).
Definition throw {A} (e : exc) : M A := fun w => (w, inl e).
Definition bind {A B} (m : M A) (k : A -> M B) : M B :=
  fun w => match m w with
           | (w1, inl e) => (w1, inl e)
           | (w1, inr a) => k a w1
           end.

Notation "x <- m ;; k" := (bind m (fun x => k))
  (at level 100, m at next level, right associativity).
Notation "m ;;; k" := (bind m (fun _ => k))
  (at level 100, right associativity).

(** [for x in xs: f(x)]. *)
Fixpoint iter {A} (f : A -> M unit) (xs : list A) : M unit :=
  match xs with
  | [] => ret tt
  | x :: rest => f x ;;; iter f rest
  end.

(** [[f(x) for x in xs]]. *)
Fixpoint mapM {A B} (f : A -> M B) (xs : list A) : M (list B) :=
  match xs with
  | [] => ret []
  | x :: rest => y <- f x ;; ys <- mapM f rest ;; ret (y :: ys)
  end.

(** Dereferencing. Python references never dangle; the error only makes the
    function total. *)
Definition load (l : loc) : M cell :=
  fun w => match heap w !! l with
           | Some c => (w, inr c)
           | None => (w, inl (AttributeError "dangling reference"))
           end.

(** The object at a location, without its [id]. *)
Definition load_obj (l : loc) : M obj := c <- load l ;; ret (obj_of c).

Definition store (l : loc) (c : cell) : M unit :=
  fun w => (mkWorld (<[l := c]> (heap w)) (the_mesh w), inr tt).

(** [obj.attr = ...] for an attribute other than [id]. *)
Definition set_obj (l : loc) (o : obj) : M unit :=
  c <- load l ;; store l (mkCell o (id c)).

(** [obj.id = n]. *)
Definition set_id (l : loc) (n : Z) : M unit :=
  c <- load l ;; store l (mkCell (obj_of c) n).

(** A new instance: a fresh location, reading the class attribute [id]. *)
Definition alloc (o : obj) : M loc :=
  fun w => let l := fresh (dom (heap w)) in
           (mkWorld (<[l := mkCell o (-1)]> (heap w)) (the_mesh w), inr l).

Definition get_mesh : M mesh := fun w => (w, inr (the_mesh w)).
Definition put_mesh (m : mesh) : M unit :=
  fun w => (mkWorld (heap w) m, inr tt).

(** ** Attribute access *)

(** [x.id]. *)
Definition get_id (l : loc) : M Z := c <- load l ;; ret (id c).

(** [x.type]. *)
Definition get_type (l : loc) : M pyval :=
  o <- load_obj l ;;
  match o with
  | Edge e => ret (PyStr (edge_type (data e)))
  | Patch p => ret (ptype p)
  | DefaultPatch _ t => ret t
  | TriSurfaceMesh _ _ => ret (PyStr "triSurfaceMesh")
  | _ => throw (AttributeError "object has no attribute 'type'")
  end.

(** [edge.v0] and [edge.v1]. *)
Definition get_v0 (l : loc) : M loc :=
  o <- load_obj l ;;
  match o with
  | Edge e => ret (v0 e)
  | _ => throw (AttributeError "object has no attribute 'v0'")
  end.
Definition get_v1 (l : loc) : M loc :=
  o <- load_obj l ;;
  match o with
  | Edge e => ret (v1 e)
  | _ => throw (AttributeError "object has no attribute 'v1'")
  end.

(** [self] of a [Block] method. *)
Definition load_block (l : loc) : M block :=
  o <- load_obj l ;;
  match o with
  | Block b => ret b
  | _ => throw (AttributeError "object is not a Block")
  end.

Definition vertex_coords (o : obj) : option vec3 :=
  match o with
  | Vertex c | ProjectVertex c _ => Some c
  | _ => None
  end.

Definition name_attr (o : obj) : option string :=
  match o with
  | Patch p => Some (name p)
  | DefaultPatch n _ | TriSurfaceMesh n _ => Some n
  | _ => None
  end.

(** ** The registry of [src/tetris/mesh.py] *)

(** The four identity categories, keys of [Mesh.ids]. *)
Inductive category := CVertex | CBlock | CPatch | CEdge.

(** [self.ids[c]] and the list of the registered elements of category [c]. *)
Definition mesh_id (c : category) (m : mesh) : Z :=
  match c with
  | CVertex => ids_vertex m
  | CBlock => ids_block m
  | CPatch => ids_patch m
  | CEdge => ids_edge m
  end.

Definition mesh_list (c : category) (m : mesh) : list loc :=
  match c with
  | CVertex => mesh_vertices m
  | CBlock => blocks m
  | CPatch => patches m
  | CEdge => mesh_edges m
  end.

(** [self.<list of c>.append(l)]. *)
Definition mesh_append (c : category) (l : loc) (m : mesh) : mesh :=
  let '(mkMesh iv ib ip ie sc gs vs bs es fs ps mp) := m in
  match c with
  | CVertex => mkMesh iv ib ip ie sc gs (vs ++ [l]) bs es fs ps mp
  | CBlock => mkMesh iv ib ip ie sc gs vs (bs ++ [l]) es fs ps mp
  | CPatch => mkMesh iv ib ip ie sc gs vs bs es fs (ps ++ [l]) mp
  | CEdge => mkMesh iv ib ip ie sc gs vs bs (es ++ [l]) fs ps mp
  end.

(** [self.ids[c] += 1]. *)
Definition mesh_incr (c : category) (m : mesh) : mesh :=
  let '(mkMesh iv ib ip ie sc gs vs bs es fs ps mp) := m in
  match c with
  | CVertex => mkMesh (iv + 1) ib ip ie sc gs vs bs es fs ps mp
  | CBlock => mkMesh iv (ib + 1) ip ie sc gs vs bs es fs ps mp
  | CPatch => mkMesh iv ib (ip + 1) ie sc gs vs bs es fs ps mp
  | CEdge => mkMesh iv ib ip (ie + 1) sc gs vs bs es fs ps mp
  end.

(** The three statements shared by the [add_*] methods:
<<
    self.vertices.append(vertex)
    self.vertices[-1].id = self.ids["vertex"]
    self.ids["vertex"] += 1
>> *)
Definition append_and_number (c : category) (l : loc) : M unit :=
  m <- get_mesh ;;
  put_mesh (mesh_append c l m) ;;;
  m <- get_mesh ;;
  set_id l (mesh_id c m) ;;;
  m <- get_mesh ;;
  put_mesh (mesh_incr c m).

(** [if x.id < 0:] followed by the three statements above. *)
Definition if_unregistered (c : category) (l : loc) : M unit :=
  i <- get_id l ;;
  if (i <? 0)%Z then append_and_number c l else ret tt.

(** [Mesh.add_geometry]. *)
Definition add_geometry (g : pyval) : M unit :=
  match g with
  | PyRef l =>
      o <- load_obj l ;;
      match o with
      | TriSurfaceMesh _ _ =>
          m <- get_mesh ;;
          let '(mkMesh iv ib ip ie sc gs vs bs es fs ps mp) := m in
          put_mesh (mkMesh iv ib ip ie sc (gs ++ [l]) vs bs es fs ps mp)
      | _ => throw (TypeError "is not a valid geometry.")
      end
  | _ => throw (TypeError "is not a valid geometry.")
  end.

(** [Mesh.add_vertex]. *)
Definition add_vertex (vertex : loc) : M unit :=
  if_unregistered CVertex vertex.

(** [Mesh.add_edge]: [if edge.type is None: return], then the two
    extremities, then the edge itself. *)
Definition add_edge (e : loc) : M unit :=
  t <- get_type e ;;
  match t with
  | PyNone => ret tt
  | _ =>
      a <- get_v0 e ;;
      b <- get_v1 e ;;
      iter add_vertex [a; b] ;;;
      if_unregistered CEdge e
  end.

(** [Mesh.add_block]. *)
Definition add_block (b : pyval) : M unit :=
  match b with
  | PyRef l =>
      o <- load_obj l ;;
      match o with
      | Block blk =>
          iter add_vertex (vertices blk) ;;;
          blk <- load_block l ;;
          iter add_edge (edges blk) ;;;
          if_unregistered CBlock l
      | _ => throw (TypeError "is not a valid block.")
      end
  | _ => throw (TypeError "is not a valid block.")
  end.

(** [Mesh.add_patch]: no type check, only [if patch.id < 0:]. *)
Definition add_patch (p : pyval) : M unit :=
  match p with
  | PyRef l => if_unregistered CPatch l
  | _ => throw (AttributeError "object has no attribute 'id'")
  end.

(** [Mesh.add_mergePatchPairs]. *)
Definition add_mergePatchPairs (master slave : pyval) : M unit :=
  add_patch master ;;;
  add_patch slave ;;;
  pp <- alloc (PatchPair master slave) ;;
  m <- get_mesh ;;
  let '(mkMesh iv ib ip ie sc gs vs bs es fs ps mp) := m in
  put_mesh (mkMesh iv ib ip ie sc gs vs bs es fs ps (mp ++ [pp])).

(** [Mesh.add_face]. *)
Definition add_face (f : pyval) : M unit :=
  match f with
  | PyRef l =>
      o <- load_obj l ;;
      match o with
      | Face _ _ =>
          m <- get_mesh ;;
          let '(mkMesh iv ib ip ie sc gs vs bs es fs ps mp) := m in
          put_mesh (mkMesh iv ib ip ie sc gs vs bs es (fs ++ [l]) ps mp)
      | _ => throw (TypeError "is not a valid geometry.")
      end
  | _ => throw (TypeError "is not a valid geometry.")
  end.

(** A call of one of the registration methods. *)
Inductive add_op :=
| AddGeometry (g : pyval)
| AddBlock (b : pyval)
| AddEdge (e : loc)
| AddVertex (v : loc)
| AddPatch (p : pyval)
| AddMergePatchPairs (master slave : pyval)
| AddFace (f : pyval).

Definition run_op (o : add_op) : M unit :=
  match o with
  | AddGeometry g => add_geometry g
  | AddBlock b => add_block b
  | AddEdge e => add_edge e
  | AddVertex v => add_vertex v
  | AddPatch p => add_patch p
  | AddMergePatchPairs m s => add_mergePatchPairs m s
  | AddFace f => add_face f
  end.

(** A script of registration calls; a call that raises leaves the state it
    reached, and the script goes on (each call inside its own [try]). *)
Fixpoint run_ops (ops : list add_op) (w : world) : world :=
  match ops with
  | [] => w
  | o :: rest => run_ops rest (fst (run_op o w))
  end.

(** ** Blocks and edges of [src/tetris/blockmesh] *)

(** [tetris.constants.BLOCK_EDGES]. *)
Definition BLOCK_EDGES : list (nat * nat) :=
  [(0, 1); (2, 3); (6, 7); (4, 5);
   (0, 3); (1, 2); (5, 6); (4, 7);
   (0, 4); (1, 5); (2, 6); (3, 7)].

(** Modelled from the spec: [tetris.utils.to_array], called by
    [Vertex.__eq__] ([all(self.coords == to_array(other))]), is missing from
    the repository. Following the spec ("two points are equal iff
    coordinates match exactly"), two vertices compare by their coordinates;
    a vertex compared with a non-vector object raises. *)
Definition vertex_eq (c : vec3) (other : obj) : M bool :=
  match vertex_coords other with
  | Some d => ret (vec_eqb c d)
  | None => throw (TypeError "cannot convert object to an array")
  end.

(** [a == b]: [Vertex.__eq__], [Geometry.__eq__] (by name), and object
    identity for the classes that keep [object.__eq__]. *)
Definition py_eq (a b : loc) : M bool :=
  oa <- load_obj a ;;
  match oa with
  | Vertex c | ProjectVertex c _ => ob <- load_obj b ;; vertex_eq c ob
  | TriSurfaceMesh n _ =>
      ob <- load_obj b ;;
      match name_attr ob with
      | Some n' => ret (String.eqb n n')
      | None => throw (AttributeError "object has no attribute 'name'")
      end
  | _ => ret (Nat.eqb a b)
  end.

(** [Edge.__init__] followed by the subclass initialiser: a new edge
    object, refused when its extremities compare equal. *)
Definition new_edge (a b : loc) (d : edge_data) : M loc :=
  same <- py_eq a b ;;
  if same then
    throw (ValueError "Zero-length edge. Vertices are at the same point in space.")
  else alloc (Edge (mkEdge a b d)).

Definition block_with_vertices (blk : block) (vs : list loc) : block :=
  mkBlock vs (edges blk) (grading blk) (grading_type blk) (ncells blk)
          (cellZone blk) (description blk).
Definition block_with_edges (blk : block) (es : list loc) : block :=
  mkBlock (vertices blk) es (grading blk) (grading_type blk) (ncells blk)
          (cellZone blk) (description blk).
Definition block_with_grading (blk : block) (g : pyval) (t : string) : block :=
  mkBlock (vertices blk) (edges blk) g t (ncells blk)
          (cellZone blk) (description blk).

(** [Block.set_vertices]:
<<
    if len(vertices) != 8:
        raise ValueError("Incorrect number of vertices. Expected 8")
    self.vertices = [vertex for vertex in vertices]
    self.edges = [
        LineEdge(self.vertices[v0], self.vertices[v1])
        for v0, v1 in tetris.constants.BLOCK_EDGES
    ]
>> *)
Definition set_vertices (self : loc) (vs : list loc) : M unit :=
  if negb (Nat.eqb (length vs) 8) then
    throw (ValueError "Incorrect number of vertices. Expected 8")
  else
    blk <- load_block self ;;
    set_obj self (Block (block_with_vertices blk vs)) ;;;
    blk <- load_block self ;;
    es <- mapM (fun '(i, j) =>
                  new_edge (nth i (vertices blk) 0) (nth j (vertices blk) 0)
                           LineEdge)
               BLOCK_EDGES ;;
    blk <- load_block self ;;
    set_obj self (Block (block_with_edges blk es)).

(** [copy.deepcopy] of a grading value; a referenced object is copied into a
    new instance (its own references are kept). *)
Fixpoint deepcopy (v : pyval) : M pyval :=
  match v with
  | PyRef l => o <- load_obj l ;; l' <- alloc o ;; ret (PyRef l')
  | PyList xs => ys <- mapM deepcopy xs ;; ret (PyList ys)
  | PyTuple xs => ys <- mapM deepcopy xs ;; ret (PyTuple ys)
  | _ => ret v
  end.

(** The [Block.grading] setter. *)
Definition set_grading (self : loc) (value : pyval) : M unit :=
  match value with
  | PyList xs | PyTuple xs =>
      if Nat.eqb (length xs) 3 then
        g <- deepcopy value ;;
        blk <- load_block self ;;
        set_obj self (Block (block_with_grading blk g "simple"))
      else if Nat.eqb (length xs) 12 then
        g <- deepcopy value ;;
        blk <- load_block self ;;
        set_obj self (Block (block_with_grading blk g "edge"))
      else
        throw (ValueError "The number of elements defining the grading must beeither 3 (simpleGrading) or 12 (edgeGrading)")
  | _ =>
      throw (TypeError "The block grading must be expressed as either aa list or a tuple.")
  end.

(** [Edge.invert] of every edge class of [blockmesh/edge.py]. *)
Definition invert (self : loc) : M loc :=
  o <- load_obj self ;;
  match o with
  | Edge e =>
      match data e with
      | LineEdge => new_edge (v1 e) (v0 e) LineEdge
      | ArcMidEdge p => new_edge (v1 e) (v0 e) (ArcMidEdge p)
      | ArcOriginEdge c f => new_edge (v1 e) (v0 e) (ArcOriginEdge c f)
      | SequenceEdge k pts =>
          (* self.__class__(self.v1, self.v0, self.points[::-1]) *)
          new_edge (v1 e) (v0 e) (SequenceEdge k (rev pts))
      | ProjectEdge s => new_edge (v1 e) (v0 e) (ProjectEdge s)
      end
  | _ => throw (AttributeError "object has no attribute 'invert'")
  end.

Section Translate.
(** [tetris.utils.to_array] is missing from the repository; the translation
    is modelled for an arbitrary conversion that reads the object graph and
    returns a 3-vector or raises. *)
Variable to_array : world -> pyval -> exc + vec3.

Definition to_arrayM (v : pyval) : M vec3 := fun w => (w, to_array w v).

(** [Vertex.__add__]: [Vertex(self.coords + to_array(other))]. *)
Definition vertex_add (self : loc) (other : pyval) : M loc :=
  o <- load_obj self ;;
  match vertex_coords o with
  | Some c => t <- to_arrayM other ;; alloc (Vertex (vec_add c t))
  | None => throw (AttributeError "object has no attribute 'coords'")
  end.

(** [Vertex.translate_]: [self.coords += to_array(vector)]. *)
Definition translate_ (self : loc) (vector : pyval) : M unit :=
  o <- load_obj self ;;
  match o with
  | Vertex c => t <- to_arrayM vector ;; set_obj self (Vertex (vec_add c t))
  | ProjectVertex c g =>
      t <- to_arrayM vector ;; set_obj self (ProjectVertex (vec_add c t) g)
  | _ => throw (AttributeError "object has no attribute 'coords'")
  end.

(** [Vertex.translate]:
<<
    vertex = self + 0
    vertex.translate_(vector)
    return vertex
>> *)
Definition translate (self : loc) (vector : pyval) : M loc :=
  vertex <- vertex_add self (PyInt 0) ;;
  translate_ vertex vector ;;;
  ret vertex.
End Translate.

End BlockMesh.

(** ** Concrete inputs *)
Module Examples.
Import BlockMesh.

Definition V (a b c : Z) : vec3 := Vec3 (inject_Z a) (inject_Z b) (inject_Z c).

(** Corners of the unit cube in blockMesh order. *)
Definition unit_cube : list vec3 :=
  [V 0 0 0; V 1 0 0; V 1 1 0; V 0 1 0; V 0 0 1; V 1 0 1; V 1 1 1; V 0 1 1].

(** Two fresh vertices and the straight edge [LineEdge(v0, v1)] between them,
    with an empty mesh. *)
Definition line_world : world :=
  mkWorld (<[0 := mkCell (Vertex (V 0 0 0)) (-1)]>
          (<[1 := mkCell (Vertex (V 1 0 0)) (-1)]>
          (<[2 := mkCell (Edge (mkEdge 0 1 LineEdge)) (-1)]> ∅)))
          new_mesh.

(** Eight fresh cube vertices at locations 0..7 and a fresh [Block()] at 8. *)
Definition fresh_block : block :=
  mkBlock [] [] (PyList [PyInt 1; PyInt 1; PyInt 1]) "simple"
          (PyList [PyInt 1; PyInt 1; PyInt 1]) "" "".

Definition cube_world_of (cs : list vec3) : world :=
  mkWorld (<[8 := mkCell (Block fresh_block) (-1)]>
             (list_to_map (zip (seq 0 8) (map (fun c => mkCell (Vertex c) (-1)) cs))))
          new_mesh.

Definition cube_world : world := cube_world_of unit_cube.

(** Eight vertices all at the origin. *)
Definition collapsed_world : world := cube_world_of (repeat (V 0 0 0) 8).

(** A spline edge: [Vertex(0, 0, 0)] to [Vertex(2, 0, 0)] and an arc with
    its mid point, for the inversion. *)
Definition arc_world : world :=
  mkWorld (<[0 := mkCell (Vertex (V 0 0 0)) (-1)]>
          (<[1 := mkCell (Vertex (V 2 0 0)) (-1)]>
          (<[2 := mkCell (Edge (mkEdge 0 1 (SequenceEdge Spline [V 1 1 0; V 2 1 0]))) 5]> ∅)))
          new_mesh.

(** [Elements] values. *)
Definition ev (c : vec3) : Elements.Vertex := Elements.mkVertex c (-1).

(** [Edge(Vertex(0, 0, 0), Vertex(2, 0, 0), type="spline")]. *)
Definition spline_0_2 : Elements.Edge :=
  Elements.mkEdge (ev (V 0 0 0)) (ev (V 2 0 0)) [] (Some "spline") (-1).

Definition cube_block : Elements.Block :=
  Elements.mkBlock (map ev unit_cube) [] [1; 1; 1]%Q "simple" [1; 1; 1]%Z "" "" (-1).
End Examples.

(** ** Observations on the object graph used by the statements *)
Module Views.
Import BlockMesh.

(** The coordinates of the vertex object at [l], if it is one. *)
Definition coords_at (h : gmap loc cell) (l : loc) : option vec3 :=
  match h !! l with
  | Some c => vertex_coords (obj_of c)
  | None => None
  end.

(** The [id] attribute read at [l]. *)
Definition id_at (h : gmap loc cell) (l : loc) : Z :=
  match h !! l with
  | Some c => id c
  | None => -1
  end.

(** The data of an edge with its interior sequence reversed. *)
Definition inverted_data (d : edge_data) : edge_data :=
  match d with
  | SequenceEdge k pts => SequenceEdge k (rev pts)
  | _ => d
  end.

(** Every reference inside a Python value points to an object. *)
Fixpoint refs_ok (h : gmap loc cell) (v : pyval) : bool :=
  match v with
  | PyRef l => bool_decide (is_Some (h !! l))
  | PyList xs | PyTuple xs => forallb (refs_ok h) xs
  | _ => true
  end.

(** The error of [Edge.__init__] on coinciding extremities. *)
Definition ZeroLength : exc :=
  ValueError "Zero-length edge. Vertices are at the same point in space.".

(** An edge-table pair whose two vertices sit at the same point. *)
Definition zero_length_pair (h : gmap loc cell) (vs : list loc) (p : nat * nat) : bool :=
  match coords_at h (nth (fst p) vs 0), coords_at h (nth (snd p) vs 0) with
  | Some ca, Some cb => vec_eqb ca cb
  | _, _ => false
  end.
#[global] Instance category_eq_dec : EqDecision category.
Proof. solve_decision. Defined.

(** The registered elements of category [c], read in list order, carry the
    identities 0, 1, 2, ... and the counter [ids[c]] is the next one. *)
Definition listed_ids_ok (h : gmap loc cell) (m : mesh) (c : category) : Prop :=
  map (id_at h) (mesh_list c m) = map Z.of_nat (seq 0 (List.length (mesh_list c m))) /\
  mesh_id c m = Z.of_nat (List.length (mesh_list c m)).

Definition ids_ok (w : world) : Prop :=
  forall c, listed_ids_ok (heap w) (the_mesh w) c.

Definition counters_ok (w : world) : Prop :=
  forall c, (0 <= mesh_id c (the_mesh w))%Z.

(** [w'] is [w] with possibly more identities assigned: the same objects,
    every assigned identity kept, the counters non-negative. *)
Definition ext (w w' : world) : Prop :=
  (forall l, option_map obj_of (heap w !! l) = option_map obj_of (heap w' !! l)) /\
  (forall l c, heap w !! l = Some c -> (0 <= id c)%Z ->
               option_map id (heap w' !! l) = Some (id c)) /\
  counters_ok w'.

(** A computation that only assigns identities, and that does nothing and
    gives the same result when run again from any such extension of the
    state it reached. *)
Definition settles {A} (m : M A) : Prop :=
  forall w, counters_ok w ->
    ext w (fst (m w)) /\ forall w2, ext (fst (m w)) w2 -> m w2 = (w2, snd (m w)).

Definition keeps_ids {A} (m : M A) : Prop :=
  forall w, ids_ok w -> ids_ok (fst (m w)).

(** Induction on Python values, through the lists they contain. *)
Section PyvalInd.
Variable P : pyval -> Prop.
Hypothesis HRef : forall l, P (PyRef l).
Hypothesis HInt : forall n, P (PyInt n).
Hypothesis HFloat : forall q, P (PyFloat q).
Hypothesis HStr : forall s, P (PyStr s).
Hypothesis HNone : P PyNone.
Hypothesis HList : forall xs, Forall P xs -> P (PyList xs).
Hypothesis HTuple : forall xs, Forall P xs -> P (PyTuple xs).

Fixpoint pyval_ind' (v : pyval) : P v :=
  let fix go (xs : list pyval) : Forall P xs :=
    match xs with
    | [] => List.Forall_nil P
    | x :: r => @List.Forall_cons _ P x r (pyval_ind' x) (go r)
    end in
  match v with
  | PyRef l => HRef l
  | PyInt n => HInt n
  | PyFloat q => HFloat q
  | PyStr s => HStr s
  | PyNone => HNone
  | PyList xs => HList xs (go xs)
  | PyTuple xs => HTuple xs (go xs)
  end.
End PyvalInd.
End Views.

(** ** More of [src/tetris/blockmesh/block.py] *)
Module BlockMethods.
Import BlockMesh.

(** A fallible pure step inside the monad. *)
Definition lift {A} (r : exc + A) : M A :=
  match r with inl e => throw e | inr a => ret a end.

(** [hash] of a non-negative Python [int]. *)
Definition int_hash (n : nat) : Z := Z.of_nat n mod (2 ^ 61 - 1).

(** The probe of CPython's [set_add_entry] for a second key in the initial
    8-slot table whose slot [occupied] holds the first key (a different
    one): [perturb >>= 5; i = (i * 5 + 1 + perturb) & 7] until a free slot.
    With a mask of 7 the linear probes are never taken. Once [perturb] is 0
    the recurrence leaves every slot after one step, so 64 steps are more
    than any hash below [2 ^ 61] needs. *)
Fixpoint probe (fuel : nat) (occupied i perturb : Z) : Z :=
  match fuel with
  | O => i
  | S f =>
      if Z.eqb i occupied then
        let perturb' := Z.shiftr perturb 5 in
        probe f occupied (Z.land (i * 5 + 1 + perturb') 7) perturb'
      else i
  end.

(** [tuple({a, b})] for two non-negative ints: the set is iterated in table
    order. *)
Definition set2_tuple (a b : nat) : list nat :=
  if Nat.eqb a b then [a] else
  let sa := Z.land (int_hash a) 7 in
  let sb := probe 64 sa (Z.land (int_hash b) 7) (int_hash b) in
  if Z.ltb sa sb then [a; b] else [b; a].

(** [xs.index(x)] on a list of objects: [PyObject_RichCompareBool] tests
    identity first, then calls [item == x]. *)
Fixpoint list_index (xs : list loc) (x : loc) (i : nat) : M nat :=
  match xs with
  | [] => throw (ValueError "x is not in list")
  | y :: rest =>
      if Nat.eqb y x then ret i
      else b <- py_eq y x ;; if b then ret i else list_index rest x (S i)
  end.

(** [BLOCK_EDGES.index(t)] for a tuple of ints [t]. *)
Fixpoint tuple_index (ps : list (nat * nat)) (t : list nat) (i : nat) : exc + nat :=
  match ps with
  | [] => inl (ValueError "tuple.index(x): x not in tuple")
  | (p, q) :: rest =>
      if bool_decide (t = [p; q]) then inr i else tuple_index rest t (S i)
  end.

(** [xs[i]] and [xs[i] = x] for a non-negative index. *)
Definition list_getitem {A} (xs : list A) (i : nat) : exc + A :=
  match xs !! i with
  | Some a => inr a
  | None => inl (IndexError "list index out of range")
  end.

Definition list_setitem {A} (xs : list A) (i : nat) (x : A) : exc + list A :=
  if Nat.ltb i (List.length xs) then inr (<[i := x]> xs)
  else inl (IndexError "list assignment index out of range").

(** [Block.set_edge]:
<<
    ids = (self.vertices.index(edge.v0), self.vertices.index(edge.v1))
    ordered_ids = tuple({*ids})
    right_order = ids == ordered_ids
    self.edges[BLOCK_EDGES.index(ordered_ids)] = (
        edge if right_order else edge.invert())
>>
    The right-hand side of the assignment is evaluated before the target. *)
Definition set_edge (self e : loc) : M unit :=
  blk <- load_block self ;;
  a <- get_v0 e ;;
  i <- list_index (vertices blk) a 0 ;;
  blk <- load_block self ;;
  b <- get_v1 e ;;
  j <- list_index (vertices blk) b 0 ;;
  let ordered_ids := set2_tuple i j in
  let right_order := bool_decide ([i; j] = ordered_ids) in
  x <- (if right_order then ret e else invert e) ;;
  blk <- load_block self ;;
  k <- lift (tuple_index BLOCK_EDGES ordered_ids 0) ;;
  es <- lift (list_setitem (edges blk) k x) ;;
  set_obj self (Block (block_with_edges blk es)).

(** [Block.edge(v0, v1)] called with two vertex objects:
<<
    id0 = v0 if isinstance(v0, int) else self.vertices.index(v0)
    id1 = v1 if isinstance(v1, int) else self.vertices.index(v1)
    ids = tuple({id0, id1})
    edge = self.edges[BLOCK_EDGES.index(ids)]
    return edge if edge.v0 == v0 else edge.invert()
>> *)
Definition edge (self v0 v1 : loc) : M loc :=
  blk <- load_block self ;;
  id0 <- list_index (vertices blk) v0 0 ;;
  blk <- load_block self ;;
  id1 <- list_index (vertices blk) v1 0 ;;
  let ids := set2_tuple id0 id1 in
  blk <- load_block self ;;
  k <- lift (tuple_index BLOCK_EDGES ids 0) ;;
  e <- lift (list_getitem (edges blk) k) ;;
  a <- get_v0 e ;;
  same <- py_eq a v0 ;;
  if same then ret e else invert e.

(** [Block()]: the attributes in the order [__init__] sets them; the
    [grading] assignment goes through its setter. *)
Definition new_block : M loc :=
  self <- alloc (Block (mkBlock [] [] PyNone "" PyNone "" "")) ;;
  set_grading self (PyList [PyInt 1; PyInt 1; PyInt 1]) ;;;
  blk <- load_block self ;;
  set_obj self (Block (mkBlock (vertices blk) (edges blk) (grading blk)
                         (grading_type blk) (PyList [PyInt 1; PyInt 1; PyInt 1])
                         "" "")) ;;;
  ret self.

(** [Block.from_vertices]. *)
Definition from_vertices (vs : list loc) : M loc :=
  cls <- new_block ;;
  set_vertices cls vs ;;;
  ret cls.

(** [tetris.constants.FACE_MAPPING]. *)
Definition FACE_MAPPING : list (string * list nat) :=
  [("left", [3; 0; 4; 7]); ("right", [1; 2; 6; 5]); ("front", [0; 1; 5; 4]);
   ("back", [2; 3; 7; 6]); ("bottom", [0; 3; 2; 1]); ("top", [4; 5; 6; 7])].

Fixpoint dict_get (d : list (string * list nat)) (k : string) : option (list nat) :=
  match d with
  | [] => None
  | (k', v) :: rest => if String.eqb k k' then Some v else dict_get rest k
  end.

(** [Block.face(label)]: [tuple([self.vertices[id] for id in FACE_MAPPING[label]])];
    the dict lookup comes first. *)
Definition face (blk : block) (label : string) : raised + list loc :=
  match dict_get FACE_MAPPING label with
  | None => inl (KeyError label)
  | Some ids =>
      (fix go (ids : list nat) : raised + list loc :=
         match ids with
         | [] => inr []
         | i :: rest =>
             match list_getitem (vertices blk) i with
             | inl e => inl (Raised e)
             | inr v => match go rest with
                        | inl e => inl e
                        | inr vs => inr (v :: vs)
                        end
             end
         end) ids
  end.
End BlockMethods.

(** ** More of [src/tetris/elements.py] *)
Module ElementsMethods.
Import Elements.

(** A new [Vertex] built from a coordinate array of shape [(3,)]:
    [np.pad(np.asfarray((arr,)).flatten(), (0, 3))[:3]] is [arr] itself, and
    [id] starts at -1. *)
Definition vertex_of (c : vec3) : Vertex := mkVertex c (-1).

Definition vec_map (f : Q -> Q) (c : vec3) : vec3 := Vec3 (f (vx c)) (f (vy c)) (f (vz c)).

(** An operand of the [Vertex] operators. Sequences and arrays are 1-D and
    hold numbers. *)
Inductive arg :=
| AVertex (v : Vertex)
| AArray (r : list Q)
| AList (r : list Q)
| ATuple (r : list Q)
| AInt (n : Z)
| AFloat (q : Q)
| AOther.

Section Float64.
(** numpy's float64 arithmetic on the coordinates: [fadd] is the rounded
    addition, [fneg] the negation, and [f64] the conversion of a Python number
    to float64 ([np.array(..., dtype="float64")], or numpy's promotion of an
    int). A float64 subtraction [a - b] rounds the same exact value as
    [a + (-b)], so it is [fadd a (fneg b)]. *)
Variable fadd : Q -> Q -> Q.
Variable fneg : Q -> Q.
Variable f64 : Q -> Q.

Definition fvec_add (a b : vec3) : vec3 :=
  Vec3 (fadd (vx a) (vx b)) (fadd (vy a) (vy b)) (fadd (vz a) (vz b)).

Definition fvec_neg (a : vec3) : vec3 := Vec3 (fneg (vx a)) (fneg (vy a)) (fneg (vz a)).

(** [coords + r] for a 1-D float64 array [r]: numpy broadcasting of shape
    [(3,)] against [(n,)]. *)
Definition np_add_row (c : vec3) (r : list Q) : raised + vec3 :=
  match r with
  | [x; y; z] => inr (fvec_add c (Vec3 x y z))
  | [x] => inr (fvec_add c (Vec3 x x x))
  | _ => inl (Raised (ValueError "operands could not be broadcast together"))
  end.

Definition vertex_result (r : raised + vec3) : raised + Vertex :=
  match r with inl e => inl e | inr c => inr (vertex_of c) end.

(** [Vertex.__add__]; the int branch computes [self.coords - -other], the
    negation in Python ints and the subtraction in float64. *)
Definition vertex_add (self : Vertex) (other : arg) : raised + Vertex :=
  let c := coords self in
  match other with
  | AVertex v => inr (vertex_of (fvec_add c (coords v)))
  | AArray r => vertex_result (np_add_row c r)
  | AList r | ATuple r => vertex_result (np_add_row c (map f64 r))
  | AInt n => inr (vertex_of (vec_map (fun x => fadd x (fneg (f64 (inject_Z (- n))))) c))
  | AFloat q => inr (vertex_of (vec_map (fun x => fadd x (fneg (fneg q))) c))
  | AOther => inl (ArithmeticError "Vertex can only be added to another Vertex or Numpy array of same shape.")
  end.

(** [Vertex.__sub__]; its list and tuple branch computes
    [self.coords + np.array(other, dtype="float64")]. *)
Definition vertex_sub (self : Vertex) (other : arg) : raised + Vertex :=
  let c := coords self in
  match other with
  | AVertex v => inr (vertex_of (fvec_add c (fvec_neg (coords v))))
  | AArray r => vertex_result (np_add_row c (map fneg r))
  | AList r | ATuple r => vertex_result (np_add_row c (map f64 r))
  | AInt n => inr (vertex_of (vec_map (fun x => fadd x (f64 (inject_Z (- n)))) c))
  | AFloat q => inr (vertex_of (vec_map (fun x => fadd x (fneg q)) c))
  | AOther => inl (ArithmeticError "Vertex can only be subtracted from another Vertex or Numpy array of same shape.")
  end.
End Float64.

(** [Vertex.__eq__] of two vertices: [all(self.coords == other.coords)]. *)
Definition vertex_eq (self other : Vertex) : bool := vec_eqb (coords self) (coords other).

(** [Edge.__init__(v0, v1, points, type)]: the zero-length check, then the
    [points] setter, then [self.type = type] and [self.id = -1]. The edge
    handed to the setter has [v0] and [v1] set; its other fields are not
    read by the setter before it writes them. *)
Definition edge_init (a b : Vertex) (pts : list (list Q)) (ty : option string) : exc + Edge :=
  if vertex_eq a b then
    inl (ValueError "Zero-length edge. Vertices are at the same point in space.")
  else
    match set_points pts (mkEdge a b [] None (-1)) with
    | (_, Some ex) => inl ex
    | (e, None) => inr (mkEdge a b (points e) ty (-1))
    end.

(** [Edge.invert]: [Edge(self.v1, self.v0, points=self.points[::-1], type=self.type)]. *)
Definition invert (e : Edge) : exc + Edge :=
  edge_init (v1 e) (v0 e) (rev (points e)) (type e).

(** [hash] of an [elements.Vertex]: the class defines [__eq__] and leaves
    [__hash__ = Element.__hash__] commented out, so Python sets [__hash__]
    to [None] and hashing an instance raises. *)
Definition vertex_hash (v : Vertex) : exc + Z :=
  inl (TypeError "unhashable type: 'Vertex'").

(** [{a, b} == {c, d}] for vertices: each set is built by hashing its
    elements in order; two sets are equal when each element of one is equal
    to an element of the other. *)
Definition set2_eq (a b c d : Vertex) : exc + bool :=
  sbind (vertex_hash a) (fun _ =>
  sbind (vertex_hash b) (fun _ =>
  sbind (vertex_hash c) (fun _ =>
  sbind (vertex_hash d) (fun _ =>
  inr (forallb (fun x => existsb (vertex_eq x) [c; d]) [a; b] &&
       forallb (fun x => existsb (vertex_eq x) [a; b]) [c; d]))))).

Definition with_vertices (b : Block) (vs : list Vertex) : Block :=
  {| vertices := vs; edges := edges b; grading := grading b;
     grading_type := grading_type b; ncells := ncells b; cellZone := cellZone b;
     description := description b; block_id := block_id b |}.

Definition with_edges (b : Block) (es : list Edge) : Block :=
  {| vertices := vertices b; edges := es; grading := grading b;
     grading_type := grading_type b; ncells := ncells b; cellZone := cellZone b;
     description := description b; block_id := block_id b |}.

(** The argument of [Block.set_vertices]. *)
Inductive seq_arg :=
| SeqList (xs : list Vertex)
| SeqTuple (xs : list Vertex)
| NotSeq.

(** The loops
<<
    for edges_on_axis in self.EDGES_ON_AXIS:
        for v0, v1 in edges_on_axis:
            self.edges.append(Edge(self.vertices[v0], self.vertices[v1]))
>>
    over the pairs of [EDGES_ON_AXIS] in order; [acc] is [self.edges] so far
    and stays in place when an [Edge] raises. *)
Fixpoint append_edges (vs : list Vertex) (pairs : list (Z * Z)) (acc : list Edge)
    : list Edge * option exc :=
  match pairs with
  | [] => (acc, None)
  | (i, j) :: rest =>
      match sbind (py_getitem vs i) (fun a =>
            sbind (py_getitem vs j) (fun b => edge_init a b [] None)) with
      | inl ex => (acc, Some ex)
      | inr e => append_edges vs rest (acc ++ [e])
      end
  end.

(** [Block.set_vertices] of [tetris.elements]. *)
Definition set_vertices (b : Block) (arg : seq_arg) : Block * option exc :=
  match arg with
  | NotSeq => (b, Some (TypeError "List of vertices should be either a list or tuple."))
  | SeqList xs | SeqTuple xs =>
      if negb (Nat.eqb (List.length xs) 8) then
        (b, Some (ValueError "Incorrect number of vertices. Expected 8 vertices"))
      else
        (* self.vertices = []; for vertex in vertices: self.vertices.append(vertex) *)
        let b := with_vertices b xs in
        (* self.edges = [] *)
        let b := with_edges b [] in
        let '(es, r) := append_edges (vertices b) (concat EDGES_ON_AXIS) [] in
        (with_edges b es, r)
  end.

(** [Block.set_edge(v0, v1, points, type)]: the [for ... else] loop over the
    edges, replacing the first edge with the same extremities or appending a
    new one. *)
Definition set_edge (b : Block) (x y : Vertex) (pts : list (list Q)) (ty : option string)
    : Block * option exc :=
  (fix loop (es : list Edge) (i : nat) : Block * option exc :=
     match es with
     | [] =>
         match edge_init x y pts ty with
         | inl ex => (b, Some ex)
         | inr e => (with_edges b (edges b ++ [e]), None)
         end
     | e :: rest =>
         match set2_eq (v0 e) (v1 e) x y with
         | inl ex => (b, Some ex)
         | inr true =>
             match edge_init x y pts ty with
             | inl ex => (b, Some ex)
             | inr e' => (with_edges b (<[i := e']> (edges b)), None)
             end
         | inr false => loop rest (S i)
         end
     end) (edges b) 0%nat.

(** A vertex argument of the getters: an instance or a local index. *)
Inductive varg :=
| GVertex (v : Vertex)
| GInt (n : Z).

(** [if not isinstance(v, Vertex): v = self.vertices[v]]. *)
Definition resolve (b : Block) (x : varg) : exc + Vertex :=
  match x with
  | GVertex v => inr v
  | GInt n => py_getitem (vertices b) n
  end.

(** [[e for e in self.edges if {e.v0, e.v1} == {v0, v1}]]. *)
Fixpoint edges_between (es : list Edge) (a c : Vertex) : exc + list Edge :=
  match es with
  | [] => inr []
  | e :: rest =>
      sbind (set2_eq (v0 e) (v1 e) a c) (fun keep =>
      sbind (edges_between rest a c) (fun found =>
      inr (if keep then e :: found else found)))
  end.

(** [Block.get_edge_by_vertex]. *)
Definition get_edge_by_vertex (b : Block) (x y : varg) : exc + Edge :=
  sbind (resolve b x) (fun a =>
  sbind (resolve b y) (fun c =>
  sbind (edges_between (edges b) a c) (fun found =>
  sbind (py_getitem found 0) (fun e =>
  if vertex_eq (v0 e) a then inr e else invert e)))).

(** The value of [Edge.length]: [distance] returns the array computed by
    [normL2], one norm per row. *)
Section Length.
Variable sqrt : Q -> Q.

(** [utils.distance] applied to two arrays of points: the name [Vertex] of
    [isinstance(point1, Vertex)] is looked up first. *)
Definition distance_rows (p1 p2 : list (list Q)) : exc + list Q :=
  sbind (utils_lookup "isinstance") (fun _ =>
  sbind (utils_lookup "Vertex") (fun _ =>
  inr (zip_with (fun r s => sqrt (fold_right Qplus 0 (map (fun x => x * x) (zip_with Qplus r s)))%Q)
                p1 p2))).

(** [Edge.length]. A straight edge ([type is None]) measures [distance(v0, v1)];
    otherwise [np.concatenate] of the [(1, 3)] end rows and [self.points],
    which needs a 2-D array of rows of 3, then [distance] of the consecutive
    rows. *)
Definition length (e : Edge) : exc + list Q :=
  match type e with
  | None =>
      sbind (distance sqrt (v0 e) (v1 e)) (fun d => inr [d])
  | Some _ =>
      if negb (Nat.eqb (List.length (points e)) 0) &&
         forallb (fun r => Nat.eqb (List.length r) 3) (points e) then
        let pts := [vec_row (coords (v0 e))] ++ points e ++ [vec_row (coords (v1 e))] in
        distance_rows (py_slice pts 0 (-1)) (py_slice pts 1 (Z.of_nat (List.length pts)))
      else inl (ValueError "all the input array dimensions except for the concatenation axis must match exactly")
  end.

(** [Block.set_cell_size(value, axis)] with an axis:
<<
    id0, id1 = self.EDGES_ON_AXIS[axis][0]
    self.ncells[axis] = ncells_simple(
        value, self.get_edge_by_vertex(id0, id1).length())
>>
    [ncells_simple] turns a one-element array into an [int]. *)
Definition set_cell_size_axis (b : Block) (value : Q) (axis : Z) : Block * option exc :=
  match sbind (py_getitem EDGES_ON_AXIS axis) (fun on_axis =>
        sbind (py_getitem on_axis 0) (fun '(id0, id1) =>
        sbind (get_edge_by_vertex b (GInt id0) (GInt id1)) (fun e =>
        sbind (length e) (fun l =>
        match l with
        | [d] => ncells_simple value d
        | _ => inl (TypeError "only length-1 arrays can be converted to Python scalars")
        end)))) with
  | inl ex => (b, Some ex)
  | inr n =>
      let k := if (axis <? 0)%Z then (axis + 3)%Z else axis in
      (set_ncells b (<[Z.to_nat k := n]> (ncells b)), None)
  end.
End Length.
End ElementsMethods.

(** ** Observations on blocks used by the statements below *)
Module BlockViews.
Import BlockMesh Views.

(** The coordinates of the vertex objects of a list, if all are vertices. *)
Fixpoint list_coords (h : gmap loc cell) (vs : list loc) : option (list vec3) :=
  match vs with
  | [] => Some []
  | l :: rest =>
      match coords_at h l, list_coords h rest with
      | Some c, Some cs => Some (c :: cs)
      | _, _ => None
      end
  end.

(** No two points of a list coincide. *)
Fixpoint all_distinct (cs : list vec3) : bool :=
  match cs with
  | [] => true
  | c :: rest => forallb (fun d => negb (vec_eqb c d)) rest && all_distinct rest
  end.

(** The object at [x] is an edge between two vertices at distinct points. *)
Definition edge_ok (h : gmap loc cell) (x : loc) : bool :=
  match h !! x with
  | Some (mkCell (Edge ex) _) =>
      match coords_at h (v0 ex), coords_at h (v1 ex) with
      | Some c0, Some c1 => negb (vec_eqb c0 c1)
      | _, _ => false
      end
  | _ => false
  end.
End BlockViews.

Module MoreExamples.
Import BlockMesh Examples.

(** The cube block after [Block.set_vertices] on the eight cube vertices: its
    twelve [LineEdge]s are at locations 9..20. *)
Definition meshed_world : world := fst (set_vertices 8 (seq 0 8) cube_world).

Definition meshed_block : block :=
  block_with_edges (block_with_vertices fresh_block (seq 0 8)) (seq 9 12).

(** The same world with a spline from vertex 1 to vertex 0 at location 30. *)
Definition spare_edge_world : world :=
  mkWorld (<[30 := mkCell (Edge (mkEdge 1 0 (SequenceEdge Spline [V 1 0 1; V 0 0 1]))) (-1)]>
             (heap meshed_world))
          (the_mesh meshed_world).

(** A [TriSurfaceMesh] at 0 and a [Face] at 1, with an empty mesh. *)
Definition geometry_world : world :=
  mkWorld (<[0 := mkCell (TriSurfaceMesh "sphere" "sphere.stl") (-1)]>
          (<[1 := mkCell (Face [] 0) (-1)]> ∅))
          new_mesh.

(** Two new patches at 0 and 1, with an empty mesh. *)
Definition patches_world : world :=
  mkWorld (<[0 := mkCell (Patch (mkPatch "inlet" (PyStr "patch") (PyList []))) (-1)]>
          (<[1 := mkCell (Patch (mkPatch "outlet" (PyStr "patch") (PyList []))) (-1)]> ∅))
          new_mesh.

(** [Edge(Vertex(0, 0, 0), Vertex(2, 0, 0), [[1, 1, 0], [1, 2, 0]], "spline")]. *)
Definition spline_two_points : Elements.Edge :=
  Elements.mkEdge (ev (V 0 0 0)) (ev (V 2 0 0)) [[1; 1; 0]; [1; 2; 0]]%Q (Some "spline") (-1).
End MoreExamples.

Module ElementsViews.
Import Elements ElementsMethods.

(** The shape of each edge [Edge(vertices[v0], vertices[v1])]. *)
Definition line_between (xs : list Vertex) (p : Z * Z) (e : Edge) : Prop :=
  nth_error xs (Z.to_nat (fst p)) = Some (v0 e) /\ nth_error xs (Z.to_nat (snd p)) = Some (v1 e) /\
  points e = [] /\ type e = None /\ edge_id e = (-1)%Z.

(** A pair of positions holding two vertices at distinct points. *)
Definition distinct_at (xs : list Vertex) (p : Z * Z) : Prop :=
  forall a c, nth_error xs (Z.to_nat (fst p)) = Some a -> nth_error xs (Z.to_nat (snd p)) = Some c ->
    vertex_eq a c = false.
End ElementsViews.

(** * Properties *)

Module ElementsFacts.
Import Elements Examples.

Lemma zip3_nil_r {A} (xs ys : list A) : zip3 xs ys [] = [].
Proof. destruct xs, ys; reflexivity. Qed.

Lemma py_slice_empty_tail {A} (xs : list A) : py_slice xs 2 (-0) = [].
Proof.
  unfold py_slice, py_index_norm; simpl.
  replace (Z.to_nat (Z.min (- 0) (Z.of_nat (length xs)) - Z.min 2 (Z.of_nat (length xs))))
    with 0%nat by lia.
  reflexivity.
Qed.

Lemma py_slice_strip {A} (a b : A) (xs : list A) :
  py_slice (a :: xs ++ [b]) 1 (-1) = xs.
Proof.
  unfold py_slice, py_index_norm; simpl.
  rewrite length_app; simpl.
  replace (Z.to_nat (Z.max 0 (-1 + Z.of_nat (S (length xs + 1)))
                     - Z.min 1 (Z.of_nat (S (length xs + 1)))))
    with (length xs) by lia.
  replace (Z.to_nat (Z.min 1 (Z.of_nat (S (length xs + 1))))) with 1%nat by lia.
  simpl. apply take_app_length'. reflexivity.
Qed.

(** The [points] setter never drops a point: a well-shaped non-empty
    interior list is stored as given and the edge keeps its type. *)
Lemma set_points_stores_input (pts : list (list Q)) (e : Edge) :
  np_ragged pts = false -> np_size pts <> 0%nat -> np_last_dim pts = 3%nat ->
  set_points pts e =
    ({| v0 := v0 e; v1 := v1 e; points := pts; type := type e;
        edge_id := edge_id e |}, None).
Proof.
  intros Hr Hs Hd. unfold set_points. rewrite Hr.
  destruct (Nat.eqb_spec (np_size pts) 0) as [|_]; [contradiction|].
  rewrite Hd. simpl.
  rewrite py_slice_empty_tail, zip3_nil_r. simpl.
  rewrite py_slice_strip.
  destruct (Nat.eqb_spec (np_size pts) 0); [contradiction|reflexivity].
Qed.

(** A zero cross product makes [is_collinear] answer [True]. *)
Lemma is_collinear_of_zero_cross (p0 p1 p2 : vec3) :
  vec_eqb (np_cross (vec_add p0 (vec_neg p1)) (vec_add p0 (vec_neg p2)))
          (Vec3 0 0 0) = true ->
  is_collinear (VertexArg p0) (VertexArg p1) (VertexArg p2) = inr true.
Proof.
  unfold vec_eqb, is_collinear, np_sum; simpl.
  intros H. apply andb_prop in H as [H H3]. apply andb_prop in H as [H1 H2].
  apply Qeq_bool_iff in H1, H2, H3. simpl in *.
  f_equal. apply Qeq_bool_iff. rewrite H1, H2, H3. reflexivity.
Qed.

(** C2 (code_bug). Assigning [[1, 0, 0]] to the points of the spline edge
    from (0,0,0) to (2,0,0): the interior point is collinear with the
    extremities (zero cross product), yet it is stored unchanged and the
    edge stays a spline instead of becoming a straight line. *)
Theorem set_points_keeps_collinear_point :
  let r := set_points [[1; 0; 0]%Q] spline_0_2 in
  vec_eqb (np_cross (vec_add (V 0 0 0) (vec_neg (V 1 0 0)))
                    (vec_add (V 0 0 0) (vec_neg (V 2 0 0)))) (Vec3 0 0 0) = true
  /\ snd r = None
  /\ points (fst r) = [[1; 0; 0]%Q]
  /\ type (fst r) = Some "spline".
Proof. vm_compute. repeat split. Qed.

(** C3 (code_bug). For (0,0,1), (0,0,0), (-1,-1,1) the cross product of
    (v0 - v1) and (v0 - v2) is (-1, 1, 0), not the zero vector, but its
    components sum to 0 and [is_collinear] answers [True]. *)
Theorem is_collinear_sum_test_accepts_noncollinear :
  is_collinear (VertexArg (V 0 0 1)) (VertexArg (V 0 0 0))
               (VertexArg (V (-1) (-1) 1)) = inr true
  /\ np_cross (vec_add (V 0 0 1) (vec_neg (V 0 0 0)))
              (vec_add (V 0 0 1) (vec_neg (V (-1) (-1) 1)))
     = Vec3 (-1) 1 0
  /\ vec_eqb (np_cross (vec_add (V 0 0 1) (vec_neg (V 0 0 0)))
                       (vec_add (V 0 0 1) (vec_neg (V (-1) (-1) 1))))
             (Vec3 0 0 0) = false.
Proof. vm_compute. repeat split. Qed.

(** C5 (code_bug). On every block with 8 vertices and for every target
    size, [set_cell_size] raises [NameError: name 'Vertex' is not defined]
    from [utils.distance] and leaves the cell counts unchanged. *)
Theorem set_cell_size_raises_name_error (sqrt : Q -> Q) (b : Block) (value : Q) :
  length (vertices b) = 8%nat ->
  set_cell_size sqrt b value = (b, Some (NameError "Vertex")).
Proof.
  intros H.
  destruct b as [vs es g gt n cz d i]; simpl in H.
  do 8 (destruct vs as [|? vs]; [discriminate|]).
  destruct vs; [|discriminate]. reflexivity.
Qed.

Lemma set_cell_size_raises_name_error_witness :
  length (vertices cube_block) = 8%nat
  /\ set_cell_size (fun q => q) cube_block 1 = (cube_block, Some (NameError "Vertex")).
Proof.
  split; [reflexivity|].
  apply (set_cell_size_raises_name_error (fun q => q) cube_block 1). reflexivity.
Defined.

End ElementsFacts.

Module MeshFacts.
Import BlockMesh Examples Views.

(** Unfolding the monad down to heap operations. *)
Ltac unfold_monad :=
  unfold load_obj, set_obj, set_id, get_id in *;
  unfold bind, ret, throw, load, store, alloc, get_mesh, put_mesh in *;
  simpl in *.

Lemma fresh_not_in (h : gmap loc cell) : h !! fresh (dom h) = None.
Proof. apply not_elem_of_dom. apply is_fresh. Qed.

Lemma in_dom_ne_fresh (h : gmap loc cell) (l : loc) (c : cell) :
  h !! l = Some c -> fresh (dom h) <> l.
Proof. intros H <-. rewrite fresh_not_in in H. discriminate. Qed.

(** C1 (code_bug). [Mesh.add_edge] on a straight [LineEdge]: its [type] is
    ["line"], not [None], so the edge is appended to [mesh.edges], gets
    identity 0 and the edge counter moves to 1. *)
Theorem add_edge_registers_line_edge :
  let r := add_edge 2 line_world in
  snd r = inr tt
  /\ mesh_edges (the_mesh (fst r)) = [2]
  /\ ids_edge (the_mesh (fst r)) = 1%Z
  /\ option_map id (heap (fst r) !! 2) = Some 0%Z.
Proof. vm_compute. repeat split. Qed.

(** The same defect through [add_block]: a block fresh from [set_vertices]
    has only straight edges, and all 12 of them are registered. *)
Lemma add_block_registers_straight_edges :
  let r := (set_vertices 8 (seq 0 8) ;;; add_block (PyRef 8)) cube_world in
  snd r = inr tt /\ length (mesh_edges (the_mesh (fst r))) = 12%nat
  /\ ids_edge (the_mesh (fst r)) = 12%Z.
Proof. vm_compute. repeat split. Qed.

(** [add_block] checks the type first: a value that is not a [Block] raises
    [TypeError] and leaves the world as it was. *)
Lemma add_block_rejects_non_block (w : world) (b : pyval) :
  (forall l, b = PyRef l ->
     exists c, heap w !! l = Some c /\ forall blk, obj_of c <> Block blk) ->
  exists msg, add_block b w = (w, inl (TypeError msg)).
Proof.
  intros H. destruct b; try (eexists; reflexivity).
  destruct (H l eq_refl) as [c [Hc Hnb]].
  unfold add_block. unfold_monad. rewrite Hc.
  destruct c as [o i]; simpl in *.
  destruct o; try (eexists; reflexivity).
  exfalso. eapply Hnb. reflexivity.
Qed.

(** C4 (code_bug). [Mesh.add_patch] has no type check: given a [Vertex] it
    appends the vertex to [mesh.patches], assigns it identity 0 and moves
    the patch counter, instead of raising a type error. *)
Theorem add_patch_accepts_vertex :
  let r := add_patch (PyRef 0) line_world in
  snd r = inr tt
  /\ patches (the_mesh (fst r)) = [0]
  /\ ids_patch (the_mesh (fst r)) = 1%Z
  /\ option_map id (heap (fst r) !! 0) = Some 0%Z.
Proof. vm_compute. repeat split. Qed.

(** C10. For a valid translation vector [t] (one that [to_array] converts,
    as it converts the [0] of [self + 0]), [Vertex.translate] returns a new
    [Vertex] object, absent from the heap before the call, whose [id] is the
    class default [-1]; the receiver's cell (coordinates and [id]) is left
    unchanged. This holds for any such conversion [to_array]. *)
Theorem translate_detached_copy
    (to_array : world -> pyval -> exc + vec3)
    (w : world) (v : loc) (c : cell) (t : pyval) :
  heap w !! v = Some c -> is_Some (vertex_coords (obj_of c)) ->
  (forall w', exists z, to_array w' (PyInt 0) = inr z) ->
  (forall w', exists z, to_array w' t = inr z) ->
  let r := translate to_array v t w in
  heap (fst r) !! v = Some c
  /\ exists l, snd r = inr l
       /\ heap w !! l = None
       /\ exists co, heap (fst r) !! l = Some (mkCell (Vertex co) (-1)).
Proof.
  intros Hv [co Hco] H0 Ht.
  pose proof (in_dom_ne_fresh _ _ _ Hv) as Hne.
  unfold translate, vertex_add, translate_, to_arrayM. unfold_monad.
  rewrite Hv. simpl. rewrite Hco.
  destruct (H0 w) as [z Hz]. rewrite Hz. simpl.
  rewrite lookup_insert_eq. simpl.
  match goal with |- context [to_array ?w1 t] => destruct (Ht w1) as [tv Htv]; rewrite Htv end.
  simpl. rewrite lookup_insert_eq. simpl. split.
  - rewrite !lookup_insert_ne by exact Hne. exact Hv.
  - eexists. split; [reflexivity|]. split.
    + apply fresh_not_in.
    + eexists. rewrite lookup_insert_eq. reflexivity.
Qed.

Lemma translate_detached_copy_witness :
  let to_array := fun (_ : world) (_ : pyval) => (inr (V 1 2 3) : exc + vec3) in
  let r := translate to_array 0 (PyInt 5) line_world in
  heap line_world !! 0 = Some (mkCell (Vertex (V 0 0 0)) (-1))
  /\ heap (fst r) !! 0 = Some (mkCell (Vertex (V 0 0 0)) (-1))
  /\ exists l, snd r = inr l
       /\ heap line_world !! l = None
       /\ exists co, heap (fst r) !! l = Some (mkCell (Vertex co) (-1)).
Proof.
  intros to_array r. split; [reflexivity|].
  apply (translate_detached_copy to_array line_world 0
           (mkCell (Vertex (V 0 0 0)) (-1)) (PyInt 5));
    [reflexivity | eexists; reflexivity | intros w'; eexists; reflexivity
    | intros w'; eexists; reflexivity].
Defined.

(** ** Edge inversion *)

Lemma bind_inr {A B} (m : M A) (k : A -> M B) (w w1 : world) (a : A) :
  m w = (w1, inr a) -> bind m k w = k a w1.
Proof. intros H. unfold bind. rewrite H. reflexivity. Qed.

Lemma bind_inl {A B} (m : M A) (k : A -> M B) (w w1 : world) (e : exc) :
  m w = (w1, inl e) -> bind m k w = (w1, inl e).
Proof. intros H. unfold bind. rewrite H. reflexivity. Qed.

Lemma vec_eqb_sym (a b : vec3) : vec_eqb a b = vec_eqb b a.
Proof.
  destruct a as [ax ay az], b as [bx by0 bz]. unfold vec_eqb. simpl.
  rewrite (Qeq_bool_comm ax bx), (Qeq_bool_comm ay by0), (Qeq_bool_comm az bz).
  reflexivity.
Qed.

Lemma inverted_data_involutive (d : edge_data) :
  inverted_data (inverted_data d) = d.
Proof. destruct d; simpl; try rewrite rev_involutive; reflexivity. Qed.

Lemma coords_at_insert_fresh (h : gmap loc cell) (l : loc) (c : cell) (co : vec3) :
  coords_at h l = Some co -> coords_at (<[fresh (dom h) := c]> h) l = Some co.
Proof.
  unfold coords_at. destruct (h !! l) as [cl|] eqn:Hl; [|discriminate].
  intros Hc. rewrite lookup_insert_ne by exact (in_dom_ne_fresh h l cl Hl).
  rewrite Hl. exact Hc.
Qed.

(** [Edge.__init__] on two vertex extremities: refused when their
    coordinates coincide, otherwise a new edge object. *)
Lemma new_edge_spec (w : world) (a b : loc) (ca cb : vec3) (d : edge_data) :
  coords_at (heap w) a = Some ca -> coords_at (heap w) b = Some cb ->
  new_edge a b d w =
    if vec_eqb ca cb
    then (w, inl (ValueError "Zero-length edge. Vertices are at the same point in space."))
    else (mkWorld (<[fresh (dom (heap w)) := mkCell (Edge (mkEdge a b d)) (-1)]> (heap w))
                  (the_mesh w), inr (fresh (dom (heap w)))).
Proof.
  unfold coords_at. intros Ha Hb.
  destruct (heap w !! a) as [[oa ia]|] eqn:Ea; [|discriminate].
  destruct (heap w !! b) as [[ob ib]|] eqn:Eb; [|discriminate].
  simpl in Ha, Hb. unfold new_edge, py_eq, vertex_eq. unfold_monad.
  rewrite Ea.
  destruct oa; simpl in Ha; try discriminate; injection Ha as ->;
    simpl; rewrite Eb; simpl; destruct ob; simpl in Hb; try discriminate; injection Hb as ->;
    simpl; destruct (vec_eqb ca cb); reflexivity.
Qed.

Lemma invert_spec (w : world) (e : loc) (ed : edge) (i : Z) :
  heap w !! e = Some (mkCell (Edge ed) i) ->
  invert e w = new_edge (v1 ed) (v0 ed) (inverted_data (data ed)) w.
Proof.
  intros He. unfold invert.
  rewrite (bind_inr _ _ w w (Edge ed)).
  - destruct (data ed); reflexivity.
  - unfold load_obj, load, bind, ret. rewrite He. reflexivity.
Qed.

(** C9 (confirmed). For an edge of any class whose extremities are two
    vertices at distinct points (what [Edge.__init__] guarantees), [invert]
    returns a new edge with the extremities swapped and the interior point
    sequence reversed, the other data kept; inverting that new edge returns
    another new edge equal to the original one in extremities and data. *)
Theorem invert_involutive (w : world) (e : loc) (i : Z) (a b : loc)
    (d : edge_data) (ca cb : vec3) :
  heap w !! e = Some (mkCell (Edge (mkEdge a b d)) i) ->
  coords_at (heap w) a = Some ca -> coords_at (heap w) b = Some cb ->
  vec_eqb ca cb = false ->
  exists w1 e1 w2 e2,
    invert e w = (w1, inr e1) /\ heap w !! e1 = None /\
    heap w1 !! e1 = Some (mkCell (Edge (mkEdge b a (inverted_data d))) (-1)) /\
    invert e1 w1 = (w2, inr e2) /\ heap w1 !! e2 = None /\
    heap w2 !! e2 = Some (mkCell (Edge (mkEdge a b d)) (-1)).
Proof.
  intros He Ha Hb Hne.
  set (e1 := fresh (dom (heap w))).
  set (w1 := mkWorld (<[e1 := mkCell (Edge (mkEdge b a (inverted_data d))) (-1)]> (heap w))
                     (the_mesh w)).
  set (e2 := fresh (dom (heap w1))).
  exists w1, e1, (mkWorld (<[e2 := mkCell (Edge (mkEdge a b d)) (-1)]> (heap w1))
                          (the_mesh w1)), e2.
  assert (Hinv1 : invert e w = (w1, inr e1)).
  { rewrite (invert_spec w e _ i He). simpl.
    rewrite (new_edge_spec w b a cb ca _ Hb Ha), vec_eqb_sym, Hne. reflexivity. }
  assert (He1 : heap w1 !! e1 = Some (mkCell (Edge (mkEdge b a (inverted_data d))) (-1))).
  { simpl. apply lookup_insert_eq. }
  split; [exact Hinv1|]. split; [apply fresh_not_in|]. split; [exact He1|].
  split.
  - rewrite (invert_spec w1 e1 _ (-1) He1). simpl.
    rewrite inverted_data_involutive.
    rewrite (new_edge_spec w1 a b ca cb _ (coords_at_insert_fresh _ _ _ _ Ha)
                                        (coords_at_insert_fresh _ _ _ _ Hb)), Hne.
    reflexivity.
  - split; [apply fresh_not_in|]. simpl. apply lookup_insert_eq.
Qed.

Lemma invert_involutive_witness :
  exists w1 e1 w2 e2,
    invert 2 arc_world = (w1, inr e1) /\ heap arc_world !! e1 = None /\
    heap w1 !! e1 = Some (mkCell (Edge (mkEdge 1 0
        (inverted_data (SequenceEdge Spline [V 1 1 0; V 2 1 0])))) (-1)) /\
    invert e1 w1 = (w2, inr e2) /\ heap w1 !! e2 = None /\
    heap w2 !! e2 = Some (mkCell (Edge (mkEdge 0 1
        (SequenceEdge Spline [V 1 1 0; V 2 1 0]))) (-1)).
Proof.
  apply (invert_involutive arc_world 2 5 0 1 _ (V 0 0 0) (V 2 0 0));
    vm_compute; reflexivity.
Defined.

(** ** The grading setter *)

Lemma refs_ok_mono (h h' : gmap loc cell) (v : pyval) :
  h ⊆ h' -> refs_ok h v = true -> refs_ok h' v = true.
Proof.
  intros Hs.
  induction v as [l|n|q|s| |xs IH|xs IH] using pyval_ind'; simpl; try tauto.
  - intros H. apply bool_decide_eq_true in H. apply bool_decide_eq_true.
    eapply lookup_weaken_is_Some; eauto.
  - induction IH as [|x xs Hx _ IHxs]; simpl; [auto|].
    intros H. apply andb_true_iff in H as [H1 H2].
    rewrite (Hx H1), (IHxs H2). reflexivity.
  - induction IH as [|x xs Hx _ IHxs]; simpl; [auto|].
    intros H. apply andb_true_iff in H as [H1 H2].
    rewrite (Hx H1), (IHxs H2). reflexivity.
Qed.

Lemma mapM_deepcopy_ok (xs : list pyval) :
  Forall (fun v => forall w, refs_ok (heap w) v = true ->
            exists w' g, deepcopy v w = (w', inr g) /\
                         the_mesh w' = the_mesh w /\ heap w ⊆ heap w') xs ->
  forall w, forallb (refs_ok (heap w)) xs = true ->
  exists w' ys, mapM deepcopy xs w = (w', inr ys) /\
                the_mesh w' = the_mesh w /\ heap w ⊆ heap w'.
Proof.
  induction 1 as [|x xs Hx _ IHxs]; intros w Hv.
  - exists w, []. split; [reflexivity|]. split; reflexivity.
  - simpl in Hv. apply andb_true_iff in Hv as [H1 H2].
    destruct (Hx w H1) as (w1 & y & Hd & Hm1 & Hs1).
    destruct (IHxs w1 (refs_ok_mono _ _ (PyList xs) Hs1 H2))
      as (w2 & ys & Hms & Hm2 & Hs2).
    exists w2, (y :: ys). cbn [mapM].
    rewrite (bind_inr _ _ _ _ _ Hd), (bind_inr _ _ _ _ _ Hms).
    split; [reflexivity|]. split; [congruence|]. etrans; eauto.
Qed.

(** [copy.deepcopy] of a value whose references all point to objects
    succeeds, leaves the mesh alone and only adds objects. *)
Lemma deepcopy_ok (v : pyval) (w : world) :
  refs_ok (heap w) v = true ->
  exists w' g, deepcopy v w = (w', inr g) /\
               the_mesh w' = the_mesh w /\ heap w ⊆ heap w'.
Proof.
  revert w.
  induction v as [l|n|q|s| |xs IH|xs IH] using pyval_ind'; intros w Hv;
    simpl in Hv.
  - apply bool_decide_eq_true in Hv as [c Hc].
    exists (mkWorld (<[fresh (dom (heap w)) := mkCell (obj_of c) (-1)]> (heap w))
                    (the_mesh w)), (PyRef (fresh (dom (heap w)))).
    split; [|split; [reflexivity|simpl; apply insert_subseteq, fresh_not_in]].
    unfold deepcopy, load_obj, bind, load, alloc, ret. rewrite Hc. reflexivity.
  - exists w, (PyInt n). split; [reflexivity|]. split; reflexivity.
  - exists w, (PyFloat q). split; [reflexivity|]. split; reflexivity.
  - exists w, (PyStr s). split; [reflexivity|]. split; reflexivity.
  - exists w, PyNone. split; [reflexivity|]. split; reflexivity.
  - destruct (mapM_deepcopy_ok xs IH w Hv) as (w' & ys & Hm & Hm' & Hs).
    exists w', (PyList ys). cbn [deepcopy].
    rewrite (bind_inr _ _ _ _ _ Hm). split; [reflexivity|]. split; assumption.
  - destruct (mapM_deepcopy_ok xs IH w Hv) as (w' & ys & Hm & Hm' & Hs).
    exists w', (PyTuple ys). cbn [deepcopy].
    rewrite (bind_inr _ _ _ _ _ Hm). split; [reflexivity|]. split; assumption.
Qed.

(** The body of an accepted assignment: copy, then store the copy and the
    grading type in the block. *)
Lemma grading_update_ok (w : world) (self : loc) (blk : block) (i : Z)
    (value : pyval) (t : string) :
  heap w !! self = Some (mkCell (Block blk) i) ->
  refs_ok (heap w) value = true ->
  exists w' g,
    (g <- deepcopy value ;;
     blk <- load_block self ;;
     set_obj self (Block (block_with_grading blk g t))) w = (w', inr tt) /\
    heap w' !! self = Some (mkCell (Block (block_with_grading blk g t)) i) /\
    (forall l c, l <> self -> heap w !! l = Some c -> heap w' !! l = Some c) /\
    the_mesh w' = the_mesh w.
Proof.
  intros Hs Hr.
  destruct (deepcopy_ok value w Hr) as (w1 & g & Hd & Hm & Hsub).
  assert (Hs1 : heap w1 !! self = Some (mkCell (Block blk) i))
    by (eapply lookup_weaken; eauto).
  exists (mkWorld (<[self := mkCell (Block (block_with_grading blk g t)) i]> (heap w1))
                  (the_mesh w1)), g.
  rewrite (bind_inr _ _ _ _ _ Hd).
  unfold load_block. unfold_monad. rewrite Hs1. simpl. rewrite Hs1. simpl.
  split; [reflexivity|]. split; [apply lookup_insert_eq|]. split; [|exact Hm].
  intros l c Hne Hl. rewrite lookup_insert_ne by congruence.
  eapply lookup_weaken; eauto.
Qed.

(** C8 (confirmed). Assigning [Block.grading] a list or tuple (whose
    references point to objects): with 3 elements the block stores a copy
    and the grading type ["simple"]; with 12 elements a copy and ["edge"];
    in both cases no other object and not the mesh changes. With any other
    number of elements the setter raises [ValueError] and the world,
    previous grading included, is left exactly as it was. *)
Theorem set_grading_by_length (w : world) (self : loc) (blk : block) (i : Z)
    (value : pyval) (xs : list pyval) :
  heap w !! self = Some (mkCell (Block blk) i) ->
  (value = PyList xs \/ value = PyTuple xs) ->
  refs_ok (heap w) value = true ->
  (List.length xs = 3%nat -> exists w' g,
      set_grading self value w = (w', inr tt) /\
      heap w' !! self = Some (mkCell (Block (block_with_grading blk g "simple")) i) /\
      (forall l c, l <> self -> heap w !! l = Some c -> heap w' !! l = Some c) /\
      the_mesh w' = the_mesh w)
  /\ (List.length xs = 12%nat -> exists w' g,
      set_grading self value w = (w', inr tt) /\
      heap w' !! self = Some (mkCell (Block (block_with_grading blk g "edge")) i) /\
      (forall l c, l <> self -> heap w !! l = Some c -> heap w' !! l = Some c) /\
      the_mesh w' = the_mesh w)
  /\ (List.length xs <> 3%nat -> List.length xs <> 12%nat ->
      exists msg, set_grading self value w = (w, inl (ValueError msg))).
Proof.
  intros Hs Hv Hr.
  assert (Hg : set_grading self value w =
    (if Nat.eqb (List.length xs) 3 then
       (g <- deepcopy value ;; blk <- load_block self ;;
        set_obj self (Block (block_with_grading blk g "simple"))) w
     else if Nat.eqb (List.length xs) 12 then
       (g <- deepcopy value ;; blk <- load_block self ;;
        set_obj self (Block (block_with_grading blk g "edge"))) w
     else (w, inl (ValueError "The number of elements defining the grading must beeither 3 (simpleGrading) or 12 (edgeGrading)"))))
    by (destruct Hv as [-> | ->]; unfold set_grading;
        destruct (Nat.eqb (List.length xs) 3), (Nat.eqb (List.length xs) 12);
        reflexivity).
  rewrite Hg. split; [|split].
  - intros H3. apply Nat.eqb_eq in H3. rewrite H3.
    exact (grading_update_ok w self blk i value "simple" Hs Hr).
  - intros H12. rewrite H12. simpl.
    exact (grading_update_ok w self blk i value "edge" Hs Hr).
  - intros H3 H12. apply Nat.eqb_neq in H3, H12. rewrite H3, H12. eexists. reflexivity.
Qed.

Lemma set_grading_by_length_witness :
  heap cube_world !! 8 = Some (mkCell (Block fresh_block) (-1)) /\
  refs_ok (heap cube_world) (PyList [PyInt 1; PyInt 1; PyInt 2]) = true /\
  (exists w' g,
      set_grading 8 (PyList [PyInt 1; PyInt 1; PyInt 2]) cube_world = (w', inr tt) /\
      heap w' !! 8 = Some (mkCell (Block (block_with_grading fresh_block g "simple")) (-1)) /\
      (forall l c, l <> 8 -> heap cube_world !! l = Some c -> heap w' !! l = Some c) /\
      the_mesh w' = the_mesh cube_world).
Proof.
  split; [vm_compute; reflexivity|]. split; [vm_compute; reflexivity|].
  apply (set_grading_by_length cube_world 8 fresh_block (-1)
           (PyList [PyInt 1; PyInt 1; PyInt 2]) [PyInt 1; PyInt 1; PyInt 2]).
  - vm_compute; reflexivity.
  - left; reflexivity.
  - vm_compute; reflexivity.
  - reflexivity.
Defined.

(** ** [Block.set_vertices] *)

Lemma load_block_ok (w : world) (l : loc) (b : block) (i : Z) :
  heap w !! l = Some (mkCell (Block b) i) -> load_block l w = (w, inr b).
Proof. intros H. unfold load_block. unfold_monad. rewrite H. reflexivity. Qed.

Lemma set_obj_ok (w : world) (l : loc) (c : cell) (o : obj) :
  heap w !! l = Some c ->
  set_obj l o w = (mkWorld (<[l := mkCell o (id c)]> (heap w)) (the_mesh w), inr tt).
Proof. intros H. unfold_monad. rewrite H. reflexivity. Qed.

Lemma coords_at_mono (h h' : gmap loc cell) (l : loc) (c : vec3) :
  h ⊆ h' -> coords_at h l = Some c -> coords_at h' l = Some c.
Proof.
  unfold coords_at. intros Hs. destruct (h !! l) as [cl|] eqn:Hl; [|discriminate].
  rewrite (lookup_weaken h h' l cl Hl Hs). tauto.
Qed.

(** Storing a block over a block changes no vertex coordinates. *)
Lemma coords_at_store_block (h : gmap loc cell) (self : loc) (b0 b : block)
    (i j : Z) (l : loc) :
  h !! self = Some (mkCell (Block b0) i) ->
  coords_at (<[self := mkCell (Block b) j]> h) l = coords_at h l.
Proof.
  intros Hs. unfold coords_at. destruct (decide (l = self)) as [->|Hne].
  - rewrite lookup_insert_eq, Hs. reflexivity.
  - rewrite lookup_insert_ne by congruence. reflexivity.
Qed.

Lemma existsb_pointwise {A} (f g : A -> bool) (xs : list A) :
  (forall x, f x = g x) -> existsb f xs = existsb g xs.
Proof. intros H. induction xs; simpl; [reflexivity|]. rewrite H, IHxs. reflexivity. Qed.

Lemma lookup_None_weaken (h h' : gmap loc cell) (l : loc) :
  h ⊆ h' -> h' !! l = None -> h !! l = None.
Proof.
  intros Hs H. destruct (h !! l) as [c|] eqn:Hl; [|reflexivity].
  rewrite (lookup_weaken h h' l c Hl Hs) in H. discriminate.
Qed.

(** The list comprehension of [set_vertices] when no pair of the table is
    degenerate: one new straight edge per pair, in order. *)
Lemma mapM_new_edges_ok (h0 : gmap loc cell) (vs : list loc) (ps : list (nat * nat)) :
  forall w, h0 ⊆ heap w ->
  (forall p, In p ps -> is_Some (coords_at h0 (nth (fst p) vs 0)) /\
                        is_Some (coords_at h0 (nth (snd p) vs 0))) ->
  existsb (zero_length_pair h0 vs) ps = false ->
  exists w' es,
    mapM (fun '(i, j) => new_edge (nth i vs 0) (nth j vs 0) LineEdge) ps w = (w', inr es) /\
    the_mesh w' = the_mesh w /\ heap w ⊆ heap w' /\
    Forall2 (fun p l => heap w !! l = None /\
               heap w' !! l = Some (mkCell (Edge (mkEdge (nth (fst p) vs 0)
                                                        (nth (snd p) vs 0) LineEdge)) (-1)))
            ps es.
Proof.
  induction ps as [|[p q] ps IH]; intros w Hs Hco Hz.
  - exists w, []. split; [reflexivity|]. split; [reflexivity|]. split; [reflexivity|].
    constructor.
  - simpl in Hz. apply orb_false_iff in Hz as [Hz0 Hz].
    destruct (Hco (p, q) (or_introl eq_refl)) as [[ca Ha] [cb Hb]]. simpl in Ha, Hb.
    unfold zero_length_pair in Hz0. simpl in Hz0. rewrite Ha, Hb in Hz0.
    pose proof (new_edge_spec w (nth p vs 0) (nth q vs 0) ca cb LineEdge
                  (coords_at_mono _ _ _ _ Hs Ha) (coords_at_mono _ _ _ _ Hs Hb)) as Hn.
    rewrite Hz0 in Hn.
    set (l := fresh (dom (heap w))) in Hn.
    set (w1 := mkWorld (<[l := mkCell (Edge (mkEdge (nth p vs 0) (nth q vs 0) LineEdge)) (-1)]>
                         (heap w)) (the_mesh w)) in Hn.
    assert (Hs1 : heap w ⊆ heap w1) by (apply insert_subseteq, fresh_not_in).
    destruct (IH w1 (transitivity Hs Hs1) (fun p' H => Hco p' (or_intror H)) Hz)
      as (w2 & es & Hm & Hm2 & Hs2 & Hf).
    exists w2, (l :: es). cbn [mapM].
    rewrite (bind_inr _ _ _ _ _ Hn), (bind_inr _ _ _ _ _ Hm).
    split; [reflexivity|]. split; [exact Hm2|]. split; [etrans; eauto|].
    constructor.
    + split; [apply fresh_not_in|]. eapply lookup_weaken; [|exact Hs2].
      simpl. apply lookup_insert_eq.
    + eapply Forall2_impl; [exact Hf|]. intros p' l' [H1 H2].
      split; [|exact H2]. eapply lookup_None_weaken; eauto.
Qed.

(** ... and when one pair is degenerate: the zero-length error, with only
    new objects added before it. *)
Lemma mapM_new_edges_fail (h0 : gmap loc cell) (vs : list loc) (ps : list (nat * nat)) :
  forall w, h0 ⊆ heap w ->
  (forall p, In p ps -> is_Some (coords_at h0 (nth (fst p) vs 0)) /\
                        is_Some (coords_at h0 (nth (snd p) vs 0))) ->
  existsb (zero_length_pair h0 vs) ps = true ->
  exists w',
    mapM (fun '(i, j) => new_edge (nth i vs 0) (nth j vs 0) LineEdge) ps w =
      (w', inl ZeroLength) /\
    the_mesh w' = the_mesh w /\ heap w ⊆ heap w'.
Proof.
  induction ps as [|[p q] ps IH]; intros w Hs Hco Hz; [discriminate|].
  simpl in Hz.
  destruct (Hco (p, q) (or_introl eq_refl)) as [[ca Ha] [cb Hb]]. simpl in Ha, Hb.
  unfold zero_length_pair in Hz. simpl in Hz. rewrite Ha, Hb in Hz.
  pose proof (new_edge_spec w (nth p vs 0) (nth q vs 0) ca cb LineEdge
                (coords_at_mono _ _ _ _ Hs Ha) (coords_at_mono _ _ _ _ Hs Hb)) as Hn.
  cbn [mapM]. destruct (vec_eqb ca cb).
  - exists w. rewrite (bind_inl _ _ _ _ _ Hn). split; [reflexivity|].
    split; reflexivity.
  - simpl in Hz.
    set (l := fresh (dom (heap w))) in Hn.
    set (w1 := mkWorld (<[l := mkCell (Edge (mkEdge (nth p vs 0) (nth q vs 0) LineEdge)) (-1)]>
                         (heap w)) (the_mesh w)) in Hn.
    assert (Hs1 : heap w ⊆ heap w1) by (apply insert_subseteq, fresh_not_in).
    destruct (IH w1 (transitivity Hs Hs1) (fun p' H => Hco p' (or_intror H)) Hz)
      as (w2 & Hm & Hm2 & Hs2).
    exists w2. rewrite (bind_inr _ _ _ _ _ Hn).
    unfold bind at 1. rewrite Hm.
    split; [reflexivity|]. split; [exact Hm2|]. etrans; eauto.
Qed.

Lemma BLOCK_EDGES_in_range (p : nat * nat) :
  In p BLOCK_EDGES -> (fst p < 8)%nat /\ (snd p < 8)%nat.
Proof.
  unfold BLOCK_EDGES. simpl.
  intros H; repeat (destruct H as [<-|H]; [simpl; lia|]); destruct H.
Qed.

(** C7, counterexample. Eight vertices at one point: [LineEdge] refuses
    the first zero-length edge, and [set_vertices] raises [ValueError]
    after the block's vertex list has already been replaced. *)
Lemma set_vertices_collapsed_raises :
  let r := set_vertices 8 (seq 0 8) collapsed_world in
  snd r = inl ZeroLength /\
  heap (fst r) !! 8 = Some (mkCell (Block (block_with_vertices fresh_block (seq 0 8))) (-1)).
Proof. vm_compute. split; reflexivity. Qed.

(** C7 (corrected). [Block.set_vertices self vs], [self] a block and every
    element of [vs] a vertex:
    - if [vs] does not have 8 elements it raises [ValueError] and changes
      nothing;
    - if it has 8 and no pair of the edge table joins two vertices at the
      same point, it replaces the vertex list by [vs] and the edge list by 12
      new straight edges, the k-th joining the vertices at the k-th pair of
      the table; nothing else in the block and not the mesh changes;
    - if it has 8 and some pair of the table joins two vertices at the same
      point, it raises the zero-length [ValueError] of [Edge.__init__] after
      the vertex list has been replaced, the old edge list left in place. *)
Theorem set_vertices_spec (w : world) (self : loc) (blk : block) (i : Z)
    (vs : list loc) :
  heap w !! self = Some (mkCell (Block blk) i) ->
  Forall (fun l => is_Some (coords_at (heap w) l)) vs ->
  (List.length vs <> 8%nat ->
     set_vertices self vs w =
       (w, inl (ValueError "Incorrect number of vertices. Expected 8")))
  /\ (List.length vs = 8%nat ->
      existsb (zero_length_pair (heap w) vs) BLOCK_EDGES = false ->
      exists w' es,
        set_vertices self vs w = (w', inr tt) /\
        heap w' !! self =
          Some (mkCell (Block (block_with_edges (block_with_vertices blk vs) es)) i) /\
        the_mesh w' = the_mesh w /\
        List.length es = 12%nat /\
        Forall2 (fun p l => heap w !! l = None /\
                   heap w' !! l = Some (mkCell (Edge (mkEdge (nth (fst p) vs 0)
                                                  (nth (snd p) vs 0) LineEdge)) (-1)))
                BLOCK_EDGES es)
  /\ (List.length vs = 8%nat ->
      existsb (zero_length_pair (heap w) vs) BLOCK_EDGES = true ->
      exists w',
        set_vertices self vs w = (w', inl ZeroLength) /\
        heap w' !! self = Some (mkCell (Block (block_with_vertices blk vs)) i) /\
        the_mesh w' = the_mesh w).
Proof.
  intros Hself Hvs.
  set (w1 := mkWorld (<[self := mkCell (Block (block_with_vertices blk vs)) i]> (heap w))
                     (the_mesh w)).
  assert (Hs1 : heap w1 !! self = Some (mkCell (Block (block_with_vertices blk vs)) i))
    by apply lookup_insert_eq.
  assert (Hco1 : forall l, coords_at (heap w1) l = coords_at (heap w) l)
    by (intros l; exact (coords_at_store_block _ _ _ _ _ _ l Hself)).
  assert (Hz1 : existsb (zero_length_pair (heap w1) vs) BLOCK_EDGES =
                existsb (zero_length_pair (heap w) vs) BLOCK_EDGES).
  { apply existsb_pointwise. intros x. unfold zero_length_pair.
    rewrite !Hco1. reflexivity. }
  assert (Hin : forall n, (n < 8)%nat -> List.length vs = 8%nat ->
                  is_Some (coords_at (heap w1) (nth n vs 0))).
  { intros n Hn Hl. rewrite Hco1. rewrite Forall_forall in Hvs.
    apply Hvs. apply list_elem_of_In, nth_In. lia. }
  assert (Hpairs : List.length vs = 8%nat -> forall p, In p BLOCK_EDGES ->
            is_Some (coords_at (heap w1) (nth (fst p) vs 0)) /\
            is_Some (coords_at (heap w1) (nth (snd p) vs 0))).
  { intros Hl p Hp. destruct (BLOCK_EDGES_in_range p Hp).
    split; apply Hin; assumption. }
  assert (Hsv : List.length vs = 8%nat ->
    set_vertices self vs w =
      (es <- mapM (fun '(i0, j) => new_edge (nth i0 vs 0) (nth j vs 0) LineEdge)
                  BLOCK_EDGES ;;
       blk1 <- load_block self ;;
       set_obj self (Block (block_with_edges blk1 es))) w1).
  { intros Hl. unfold set_vertices. rewrite Hl. cbn [negb Nat.eqb].
    rewrite (bind_inr _ _ _ _ _ (load_block_ok w self blk i Hself)).
    rewrite (bind_inr _ _ _ _ _ (set_obj_ok w self _ (Block (block_with_vertices blk vs))
                                   Hself)).
    rewrite (bind_inr _ _ _ _ _ (load_block_ok w1 self _ i Hs1)).
    reflexivity. }
  split; [|split].
  - intros Hl. apply Nat.eqb_neq in Hl. unfold set_vertices. rewrite Hl.
    reflexivity.
  - intros Hl Hz.
    rewrite <- Hz1 in Hz.
    destruct (mapM_new_edges_ok (heap w1) vs BLOCK_EDGES w1 ltac:(reflexivity)
                                (Hpairs Hl) Hz) as (w2 & es & Hm & Hm2 & Hs2 & Hf).
    assert (Hs2' : heap w2 !! self = Some (mkCell (Block (block_with_vertices blk vs)) i))
      by (eapply lookup_weaken; eauto).
    exists (mkWorld (<[self := mkCell (Block (block_with_edges (block_with_vertices blk vs) es)) i]>
                      (heap w2)) (the_mesh w2)), es.
    rewrite (Hsv Hl), (bind_inr _ _ _ _ _ Hm),
      (bind_inr _ _ _ _ _ (load_block_ok _ _ _ _ Hs2')), (set_obj_ok _ _ _ _ Hs2').
    split; [reflexivity|]. split; [apply lookup_insert_eq|].
    split; [simpl; rewrite Hm2; reflexivity|].
    split; [apply Forall2_length in Hf; rewrite <- Hf; reflexivity|].
    eapply Forall2_impl; [exact Hf|]. intros p l [H1 H2].
    assert (Hne : l <> self) by (intros ->; rewrite Hs1 in H1; discriminate).
    split.
    + simpl in H1. rewrite lookup_insert_ne in H1 by congruence. exact H1.
    + simpl. rewrite lookup_insert_ne by congruence. exact H2.
  - intros Hl Hz.
    rewrite <- Hz1 in Hz.
    destruct (mapM_new_edges_fail (heap w1) vs BLOCK_EDGES w1 ltac:(reflexivity)
                                  (Hpairs Hl) Hz) as (w2 & Hm & Hm2 & Hs2).
    exists w2. rewrite (Hsv Hl), (bind_inl _ _ _ _ _ Hm).
    split; [reflexivity|]. split; [eapply lookup_weaken; eauto|].
    rewrite Hm2. reflexivity.
Qed.

Lemma set_vertices_spec_witness :
  heap cube_world !! 8 = Some (mkCell (Block fresh_block) (-1)) /\
  Forall (fun l => is_Some (coords_at (heap cube_world) l)) (seq 0 8) /\
  List.length (seq 0 8) = 8%nat /\
  existsb (zero_length_pair (heap cube_world) (seq 0 8)) BLOCK_EDGES = false /\
  exists w' es,
    set_vertices 8 (seq 0 8) cube_world = (w', inr tt) /\
    heap w' !! 8 =
      Some (mkCell (Block (block_with_edges (block_with_vertices fresh_block (seq 0 8)) es)) (-1)) /\
    the_mesh w' = the_mesh cube_world /\
    List.length es = 12%nat /\
    Forall2 (fun p l => heap cube_world !! l = None /\
               heap w' !! l = Some (mkCell (Edge (mkEdge (nth (fst p) (seq 0 8) 0)
                                              (nth (snd p) (seq 0 8) 0) LineEdge)) (-1)))
            BLOCK_EDGES es.
Proof.
  assert (Hself : heap cube_world !! 8 = Some (mkCell (Block fresh_block) (-1)))
    by (vm_compute; reflexivity).
  assert (Hvs : Forall (fun l => is_Some (coords_at (heap cube_world) l)) (seq 0 8)).
  { vm_compute. repeat constructor; eexists; reflexivity. }
  assert (Hz : existsb (zero_length_pair (heap cube_world) (seq 0 8)) BLOCK_EDGES = false)
    by (vm_compute; reflexivity).
  split; [exact Hself|]. split; [exact Hvs|]. split; [reflexivity|]. split; [exact Hz|].
  exact (proj1 (proj2 (set_vertices_spec cube_world 8 fresh_block (-1) (seq 0 8)
                         Hself Hvs)) eq_refl Hz).
Defined.

End MeshFacts.

(** * The registry: identities and re-registration *)
Module RegistryFacts.
Import BlockMesh Views MeshFacts.

(** ** The mesh record under [append] and [+= 1] *)

Lemma mesh_list_append_same (c : category) (l : loc) (m : mesh) :
  mesh_list c (mesh_append c l m) = mesh_list c m ++ [l].
Proof. destruct m, c; reflexivity. Qed.

Lemma mesh_list_append_other (c c' : category) (l : loc) (m : mesh) :
  c' <> c -> mesh_list c' (mesh_append c l m) = mesh_list c' m.
Proof. intros H. destruct m, c, c'; try congruence; reflexivity. Qed.

Lemma mesh_id_append (c c' : category) (l : loc) (m : mesh) :
  mesh_id c' (mesh_append c l m) = mesh_id c' m.
Proof. destruct m, c, c'; reflexivity. Qed.

Lemma mesh_list_incr (c c' : category) (m : mesh) :
  mesh_list c' (mesh_incr c m) = mesh_list c' m.
Proof. destruct m, c, c'; reflexivity. Qed.

Lemma mesh_id_incr_same (c : category) (m : mesh) :
  mesh_id c (mesh_incr c m) = (mesh_id c m + 1)%Z.
Proof. destruct m, c; reflexivity. Qed.

Lemma mesh_id_incr_other (c c' : category) (m : mesh) :
  c' <> c -> mesh_id c' (mesh_incr c m) = mesh_id c' m.
Proof. intros H. destruct m, c, c'; try congruence; reflexivity. Qed.

(** ** [if x.id < 0:] evaluated *)

Lemma if_unregistered_some (c : category) (l : loc) (w : world) (cl : cell) :
  heap w !! l = Some cl ->
  if_unregistered c l w =
    if (id cl <? 0)%Z then
      (mkWorld (<[l := mkCell (obj_of cl) (mesh_id c (the_mesh w))]> (heap w))
               (mesh_incr c (mesh_append c l (the_mesh w))), inr tt)
    else (w, inr tt).
Proof.
  intros H. unfold if_unregistered, append_and_number. unfold_monad.
  rewrite H. destruct (id cl <? 0)%Z; [|reflexivity].
  simpl. rewrite H. simpl. rewrite mesh_id_append. reflexivity.
Qed.

Lemma if_unregistered_none (c : category) (l : loc) (w : world) :
  heap w !! l = None ->
  if_unregistered c l w = (w, inl (AttributeError "dangling reference")).
Proof. intros H. unfold if_unregistered. unfold_monad. rewrite H. reflexivity. Qed.

(** ** Extensions of a state *)

Lemma ext_refl (w : world) : counters_ok w -> ext w w.
Proof.
  intros Hc. split; [reflexivity|]. split; [|exact Hc].
  intros l c Hl _. rewrite Hl. reflexivity.
Qed.

Lemma ext_trans (w1 w2 w3 : world) : ext w1 w2 -> ext w2 w3 -> ext w1 w3.
Proof.
  intros [Ho1 [Hi1 _]] [Ho2 [Hi2 Hc3]]. split; [|split; [|exact Hc3]].
  - intros l. rewrite Ho1. apply Ho2.
  - intros l c Hl Hpos. specialize (Hi1 l c Hl Hpos).
    destruct (heap w2 !! l) as [c2|] eqn:E2; [|discriminate].
    simpl in Hi1. injection Hi1 as Hid.
    rewrite <- Hid. apply (Hi2 l c2 E2). lia.
Qed.

Lemma ext_counters (w w' : world) : ext w w' -> counters_ok w'.
Proof. intros [_ [_ H]]. exact H. Qed.

(** ** Computations that settle *)

Lemma settles_ret {A} (a : A) : settles (ret a).
Proof.
  intros w Hc. split; [apply ext_refl; exact Hc|]. intros w2 _. reflexivity.
Qed.

Lemma settles_throw {A} (e : exc) : settles (A := A) (throw e).
Proof.
  intros w Hc. split; [apply ext_refl; exact Hc|]. intros w2 _. reflexivity.
Qed.

Lemma settles_bind {A B} (m : M A) (k : A -> M B) :
  settles m -> (forall a, settles (k a)) -> settles (bind m k).
Proof.
  intros Hm Hk w Hc. destruct (Hm w Hc) as [Hext Hagain].
  unfold bind. destruct (m w) as [w1 [e|a]] eqn:E; simpl in *.
  - split; [exact Hext|]. intros w2 H2. rewrite (Hagain w2 H2). reflexivity.
  - destruct (Hk a w1 (ext_counters _ _ Hext)) as [Hext' Hagain'].
    split; [eapply ext_trans; eauto|].
    intros w2 H2. rewrite (Hagain w2 (ext_trans _ _ _ Hext' H2)).
    apply Hagain'. exact H2.
Qed.

Lemma settles_iter {A} (f : A -> M unit) (xs : list A) :
  (forall x, settles (f x)) -> settles (iter f xs).
Proof.
  intros Hf. induction xs as [|x xs IH]; simpl.
  - apply settles_ret.
  - apply settles_bind; [apply Hf|]. intros _. exact IH.
Qed.

Lemma settles_load_obj (l : loc) : settles (load_obj l).
Proof.
  intros w Hc. unfold load_obj, load, bind, ret.
  destruct (heap w !! l) as [cl|] eqn:E; simpl;
    (split; [apply ext_refl; exact Hc|]); intros w2 [Ho _]; specialize (Ho l);
    rewrite E in Ho; destruct (heap w2 !! l) as [c2|]; simpl in Ho;
    try discriminate; try (injection Ho as Ho; rewrite Ho); reflexivity.
Qed.

Lemma settles_if_unregistered (c : category) (l : loc) : settles (if_unregistered c l).
Proof.
  intros w Hc. destruct (heap w !! l) as [cl|] eqn:E.
  - rewrite (if_unregistered_some c l w cl E).
    destruct (id cl <? 0)%Z eqn:Hlt; simpl.
    + split.
      * split; [|split].
        -- intros l'. simpl. destruct (decide (l' = l)) as [->|Hne].
           ++ rewrite lookup_insert_eq, E. reflexivity.
           ++ rewrite lookup_insert_ne by congruence. reflexivity.
        -- intros l' c' Hl' Hpos. simpl. destruct (decide (l' = l)) as [->|Hne].
           ++ rewrite E in Hl'. injection Hl' as <-. apply Z.ltb_lt in Hlt. lia.
           ++ rewrite lookup_insert_ne by congruence. rewrite Hl'. reflexivity.
        -- intros c'. simpl. destruct (decide (c' = c)) as [->|Hne].
           ++ rewrite mesh_id_incr_same, mesh_id_append. specialize (Hc c). lia.
           ++ rewrite mesh_id_incr_other, mesh_id_append by exact Hne. apply Hc.
      * intros w2 [Ho [Hi _]].
        specialize (Ho l). specialize (Hi l). simpl in Ho, Hi.
        rewrite lookup_insert_eq in Ho, Hi.
        destruct (heap w2 !! l) as [c2|] eqn:E2; simpl in Ho; [|discriminate].
        specialize (Hi _ eq_refl (Hc c)). simpl in Hi. injection Hi as Hid.
        rewrite (if_unregistered_some c l w2 c2 E2), Hid.
        replace (mesh_id c (the_mesh w) <? 0)%Z with false
          by (symmetry; apply Z.ltb_ge, Hc).
        reflexivity.
    + split; [apply ext_refl; exact Hc|].
      intros w2 [Ho [Hi _]]. apply Z.ltb_ge in Hlt.
      specialize (Hi l cl E Hlt).
      destruct (heap w2 !! l) as [c2|] eqn:E2; simpl in Hi; [|discriminate].
      injection Hi as Hid. rewrite (if_unregistered_some c l w2 c2 E2), Hid.
      replace (id cl <? 0)%Z with false by (symmetry; apply Z.ltb_ge; exact Hlt).
      reflexivity.
  - rewrite (if_unregistered_none c l w E). simpl.
    split; [apply ext_refl; exact Hc|].
    intros w2 [Ho _]. specialize (Ho l). rewrite E in Ho.
    destruct (heap w2 !! l) as [c2|] eqn:E2; simpl in Ho; [discriminate|].
    apply if_unregistered_none. exact E2.
Qed.
Lemma settles_add_vertex (v : loc) : settles (add_vertex v).
Proof. apply settles_if_unregistered. Qed.

Lemma settles_get_type (l : loc) : settles (get_type l).
Proof.
  unfold get_type. apply settles_bind; [apply settles_load_obj|]. intros o.
  destruct o; first [apply settles_ret | apply settles_throw].
Qed.

Lemma settles_get_v0 (l : loc) : settles (get_v0 l).
Proof.
  unfold get_v0. apply settles_bind; [apply settles_load_obj|]. intros o.
  destruct o; first [apply settles_ret | apply settles_throw].
Qed.

Lemma settles_get_v1 (l : loc) : settles (get_v1 l).
Proof.
  unfold get_v1. apply settles_bind; [apply settles_load_obj|]. intros o.
  destruct o; first [apply settles_ret | apply settles_throw].
Qed.

Lemma settles_load_block (l : loc) : settles (load_block l).
Proof.
  unfold load_block. apply settles_bind; [apply settles_load_obj|]. intros o.
  destruct o; first [apply settles_ret | apply settles_throw].
Qed.

Lemma settles_add_edge (e : loc) : settles (add_edge e).
Proof.
  unfold add_edge. apply settles_bind; [apply settles_get_type|]. intros t.
  destruct t; try apply settles_ret;
    (apply settles_bind; [apply settles_get_v0|intros a]);
    (apply settles_bind; [apply settles_get_v1|intros b]);
    (apply settles_bind; [apply settles_iter; intros x; apply settles_add_vertex|intros _]);
    apply settles_if_unregistered.
Qed.

Lemma settles_add_block (b : pyval) : settles (add_block b).
Proof.
  unfold add_block. destruct b; try apply settles_throw.
  apply settles_bind; [apply settles_load_obj|]. intros o.
  destruct o; try apply settles_throw.
  apply settles_bind; [apply settles_iter; intros x; apply settles_add_vertex|intros _].
  apply settles_bind; [apply settles_load_block|intros blk'].
  apply settles_bind; [apply settles_iter; intros x; apply settles_add_edge|intros _].
  apply settles_if_unregistered.
Qed.

Lemma settles_again {A} (m : M A) (w : world) :
  settles m -> counters_ok w -> m (fst (m w)) = (fst (m w), snd (m w)).
Proof.
  intros Hm Hc. destruct (Hm w Hc) as [Hext Hagain].
  apply Hagain. apply ext_refl. exact (ext_counters _ _ Hext).
Qed.

(** ** The numbering invariant *)

Lemma id_at_nonneg_is_Some (h : gmap loc cell) (l : loc) :
  (0 <= id_at h l)%Z -> is_Some (h !! l).
Proof. unfold id_at. destruct (h !! l); [eauto|lia]. Qed.

Lemma listed_nonneg (w : world) (c : category) (l : loc) :
  ids_ok w -> In l (mesh_list c (the_mesh w)) -> (0 <= id_at (heap w) l)%Z.
Proof.
  intros Hw Hin. destruct (Hw c) as [Hmap _].
  apply (in_map (id_at (heap w))) in Hin. rewrite Hmap in Hin.
  apply in_map_iff in Hin as [k [<- _]]. lia.
Qed.

Lemma map_id_at_insert_unlisted (h : gmap loc cell) (l : loc) (c : cell) (xs : list loc) :
  (forall x, In x xs -> x <> l) ->
  map (id_at (<[l := c]> h)) xs = map (id_at h) xs.
Proof.
  intros H. apply map_ext_in. intros x Hx. unfold id_at.
  rewrite lookup_insert_ne by (apply not_eq_sym, H, Hx). reflexivity.
Qed.

Lemma keeps_ret {A} (a : A) : keeps_ids (ret a).
Proof. intros w Hw. exact Hw. Qed.

Lemma keeps_throw {A} (e : exc) : keeps_ids (A := A) (throw e).
Proof. intros w Hw. exact Hw. Qed.

Lemma keeps_bind {A B} (m : M A) (k : A -> M B) :
  keeps_ids m -> (forall a, keeps_ids (k a)) -> keeps_ids (bind m k).
Proof.
  intros Hm Hk w Hw. unfold bind. specialize (Hm w Hw).
  destruct (m w) as [w1 [e|a]]; simpl in *; [exact Hm|]. apply Hk. exact Hm.
Qed.

Lemma keeps_iter {A} (f : A -> M unit) (xs : list A) :
  (forall x, keeps_ids (f x)) -> keeps_ids (iter f xs).
Proof.
  intros Hf. induction xs as [|x xs IH]; simpl.
  - apply keeps_ret.
  - apply keeps_bind; [apply Hf|]. intros _. exact IH.
Qed.

Lemma keeps_load_obj (l : loc) : keeps_ids (load_obj l).
Proof.
  intros w Hw. unfold load_obj, load, bind, ret.
  destruct (heap w !! l); exact Hw.
Qed.

Lemma keeps_alloc (o : obj) : keeps_ids (alloc o).
Proof.
  intros w Hw c. unfold alloc. simpl. destruct (Hw c) as [Hmap Hid].
  split; [|exact Hid].
  rewrite map_id_at_insert_unlisted; [exact Hmap|].
  intros x Hx ->. destruct (id_at_nonneg_is_Some _ _ (listed_nonneg w c _ Hw Hx)) as [cx Hcx].
  rewrite fresh_not_in in Hcx. discriminate.
Qed.

Lemma keeps_if_unregistered (c : category) (l : loc) : keeps_ids (if_unregistered c l).
Proof.
  intros w Hw. destruct (heap w !! l) as [cl|] eqn:E;
    [|rewrite (if_unregistered_none c l w E); exact Hw].
  rewrite (if_unregistered_some c l w cl E).
  destruct (id cl <? 0)%Z eqn:Hlt; [|exact Hw]. apply Z.ltb_lt in Hlt.
  assert (Hnot : forall c' x, In x (mesh_list c' (the_mesh w)) -> x <> l).
  { intros c' x Hx ->. pose proof (listed_nonneg w c' l Hw Hx) as H.
    unfold id_at in H. rewrite E in H. lia. }
  intros c'. unfold listed_ids_ok. simpl. rewrite mesh_list_incr.
  destruct (decide (c' = c)) as [->|Hne].
  - rewrite mesh_list_append_same, map_app,
      (map_id_at_insert_unlisted _ _ _ _ (Hnot c)).
    destruct (Hw c) as [Hmap Hid]. rewrite Hmap.
    rewrite length_app, seq_app, map_app. simpl.
    unfold id_at at 1. rewrite lookup_insert_eq. simpl.
    rewrite mesh_id_incr_same, mesh_id_append, Hid.
    split; [reflexivity|lia].
  - rewrite (mesh_list_append_other c c' l _ Hne),
      (map_id_at_insert_unlisted _ _ _ _ (Hnot c')),
      (mesh_id_incr_other c c' _ Hne), mesh_id_append.
    apply Hw.
Qed.

Ltac keeps_reader :=
  apply keeps_bind; [apply keeps_load_obj|]; intros o;
  destruct o; first [apply keeps_ret | apply keeps_throw].

Lemma keeps_get_type (l : loc) : keeps_ids (get_type l).
Proof. unfold get_type. keeps_reader. Qed.

Lemma keeps_get_v0 (l : loc) : keeps_ids (get_v0 l).
Proof. unfold get_v0. keeps_reader. Qed.

Lemma keeps_get_v1 (l : loc) : keeps_ids (get_v1 l).
Proof. unfold get_v1. keeps_reader. Qed.

Lemma keeps_load_block (l : loc) : keeps_ids (load_block l).
Proof. unfold load_block. keeps_reader. Qed.

Lemma keeps_add_vertex (v : loc) : keeps_ids (add_vertex v).
Proof. apply keeps_if_unregistered. Qed.

Lemma keeps_add_edge (e : loc) : keeps_ids (add_edge e).
Proof.
  unfold add_edge. apply keeps_bind; [apply keeps_get_type|]. intros t.
  destruct t; try apply keeps_ret;
    (apply keeps_bind; [apply keeps_get_v0|intros a]);
    (apply keeps_bind; [apply keeps_get_v1|intros b]);
    (apply keeps_bind; [apply keeps_iter; intros x; apply keeps_add_vertex|intros _]);
    apply keeps_if_unregistered.
Qed.

Lemma keeps_add_block (b : pyval) : keeps_ids (add_block b).
Proof.
  unfold add_block. destruct b; try apply keeps_throw.
  apply keeps_bind; [apply keeps_load_obj|]. intros o.
  destruct o; try apply keeps_throw.
  apply keeps_bind; [apply keeps_iter; intros x; apply keeps_add_vertex|intros _].
  apply keeps_bind; [apply keeps_load_block|intros blk'].
  apply keeps_bind; [apply keeps_iter; intros x; apply keeps_add_edge|intros _].
  apply keeps_if_unregistered.
Qed.

Lemma keeps_add_patch (p : pyval) : keeps_ids (add_patch p).
Proof.
  unfold add_patch. destruct p; try apply keeps_throw. apply keeps_if_unregistered.
Qed.

(** Appending to [geometries], [faces] or [mergePatchPairs] touches no
    category. *)
Lemma ids_ok_other_lists (h : gmap loc cell) (m m' : mesh) :
  (forall c, mesh_list c m' = mesh_list c m /\ mesh_id c m' = mesh_id c m) ->
  ids_ok (mkWorld h m) -> ids_ok (mkWorld h m').
Proof.
  intros Heq Hw c. destruct (Heq c) as [Hl Hi]. unfold listed_ids_ok. simpl.
  rewrite Hl, Hi. apply Hw.
Qed.

Lemma keeps_add_geometry (g : pyval) : keeps_ids (add_geometry g).
Proof.
  unfold add_geometry. destruct g; try apply keeps_throw.
  apply keeps_bind; [apply keeps_load_obj|]. intros o.
  destruct o; try apply keeps_throw.
  intros [h m] Hw. unfold bind, get_mesh, put_mesh. simpl. destruct m.
  revert Hw. apply ids_ok_other_lists. intros c; destruct c; split; reflexivity.
Qed.

Lemma keeps_add_face (f : pyval) : keeps_ids (add_face f).
Proof.
  unfold add_face. destruct f; try apply keeps_throw.
  apply keeps_bind; [apply keeps_load_obj|]. intros o.
  destruct o; try apply keeps_throw.
  intros [h m] Hw. unfold bind, get_mesh, put_mesh. simpl. destruct m.
  revert Hw. apply ids_ok_other_lists. intros c; destruct c; split; reflexivity.
Qed.

Lemma keeps_add_mergePatchPairs (master slave : pyval) :
  keeps_ids (add_mergePatchPairs master slave).
Proof.
  unfold add_mergePatchPairs.
  apply keeps_bind; [apply keeps_add_patch|intros _].
  apply keeps_bind; [apply keeps_add_patch|intros _].
  apply keeps_bind; [apply keeps_alloc|intros pp].
  intros [h m] Hw. unfold bind, get_mesh, put_mesh. simpl. destruct m.
  revert Hw. apply ids_ok_other_lists. intros c; destruct c; split; reflexivity.
Qed.

Lemma keeps_run_op (o : add_op) : keeps_ids (run_op o).
Proof.
  destruct o; simpl.
  - apply keeps_add_geometry.
  - apply keeps_add_block.
  - apply keeps_add_edge.
  - apply keeps_add_vertex.
  - apply keeps_add_patch.
  - apply keeps_add_mergePatchPairs.
  - apply keeps_add_face.
Qed.

Lemma run_ops_ids_ok (ops : list add_op) (w : world) :
  ids_ok w -> ids_ok (run_ops ops w).
Proof.
  revert w. induction ops as [|o ops IH]; intros w Hw; simpl; [exact Hw|].
  apply IH. apply keeps_run_op. exact Hw.
Qed.

Lemma ids_ok_new_mesh (h : gmap loc cell) : ids_ok (mkWorld h new_mesh).
Proof. intros c. destruct c; split; reflexivity. Qed.

Lemma ids_ok_counters (w : world) : ids_ok w -> counters_ok w.
Proof. intros Hw c. destruct (Hw c) as [_ Hid]. rewrite Hid. lia. Qed.

(** C6 (confirmed). Start from any objects and a new [Mesh], and run any
    sequence of [add_*] calls (a call that raises keeps the state it
    reached). In the resulting state, for each category (vertex, block,
    patch, edge) the registered elements, in list order, carry the
    identities 0, 1, 2, ..., so they are pairwise distinct, and the
    category's counter is their number. From that state, registering the
    same vertex, edge or block object a second time changes nothing and
    gives the result of the first registration. *)
Theorem registration_identity (h : gmap loc cell) (ops : list add_op) :
  let w := run_ops ops (mkWorld h new_mesh) in
  (forall c,
     map (id_at (heap w)) (mesh_list c (the_mesh w)) =
       map Z.of_nat (seq 0 (List.length (mesh_list c (the_mesh w)))) /\
     NoDup (map (id_at (heap w)) (mesh_list c (the_mesh w))) /\
     mesh_id c (the_mesh w) = Z.of_nat (List.length (mesh_list c (the_mesh w)))) /\
  (forall v, let r := add_vertex v w in add_vertex v (fst r) = (fst r, snd r)) /\
  (forall e, let r := add_edge e w in add_edge e (fst r) = (fst r, snd r)) /\
  (forall b, let r := add_block b w in add_block b (fst r) = (fst r, snd r)).
Proof.
  intros w.
  assert (Hw : ids_ok w) by apply run_ops_ids_ok, ids_ok_new_mesh.
  pose proof (ids_ok_counters w Hw) as Hc.
  split; [|split; [|split]].
  - intros c. destruct (Hw c) as [Hmap Hid].
    split; [exact Hmap|]. split; [|exact Hid].
    rewrite Hmap. apply NoDup_ListNoDup.
    apply NoDup_map_NoDup_ForallPairs; [intros x y _ _ Hxy; lia|apply seq_NoDup].
  - intros v. apply settles_again; [apply settles_add_vertex|exact Hc].
  - intros e. apply settles_again; [apply settles_add_edge|exact Hc].
  - intros b. apply settles_again; [apply settles_add_block|exact Hc].
Qed.

End RegistryFacts.

(** * The methods of [blockmesh/block.py]: edges and faces of a block *)
Module BlockFacts.
Import BlockMesh Views MeshFacts BlockMethods BlockViews Examples MoreExamples.

Lemma vec_eqb_refl (c : vec3) : vec_eqb c c = true.
Proof. destruct c. unfold vec_eqb. simpl. rewrite !Qeq_bool_refl. reflexivity. Qed.

Lemma py_eq_vertices (w : world) (y a : loc) (c d : vec3) :
  coords_at (heap w) y = Some c -> coords_at (heap w) a = Some d ->
  py_eq y a w = (w, inr (vec_eqb c d)).
Proof.
  unfold coords_at. intros Hy Ha.
  destruct (heap w !! y) as [[oy iy]|] eqn:Ey; [|discriminate].
  destruct (heap w !! a) as [[oa ia]|] eqn:Ea; [|discriminate].
  simpl in Hy, Ha. unfold py_eq, vertex_eq. unfold_monad. rewrite Ey.
  destruct oy; simpl in Hy; try discriminate; injection Hy as ->;
    simpl; rewrite Ea; destruct oa; simpl in Ha; try discriminate; injection Ha as ->;
    reflexivity.
Qed.

Lemma list_coords_length (h : gmap loc cell) (vs : list loc) (cs : list vec3) :
  list_coords h vs = Some cs -> List.length cs = List.length vs.
Proof.
  revert cs; induction vs as [|l vs IH]; intros cs H; simpl in H.
  - injection H as <-. reflexivity.
  - destruct (coords_at h l), (list_coords h vs) eqn:E; try discriminate.
    injection H as <-. simpl. rewrite (IH l0 eq_refl). reflexivity.
Qed.

Lemma list_coords_lookup (h : gmap loc cell) (vs : list loc) (cs : list vec3) (i : nat) (c : vec3) :
  list_coords h vs = Some cs -> cs !! i = Some c ->
  exists l, vs !! i = Some l /\ coords_at h l = Some c.
Proof.
  revert cs i; induction vs as [|l vs IH]; intros cs i H Hi; simpl in H.
  - injection H as <-. rewrite lookup_nil in Hi. discriminate.
  - destruct (coords_at h l) eqn:El, (list_coords h vs) eqn:E; try discriminate.
    injection H as <-. destruct i as [|i]; simpl in Hi.
    + injection Hi as <-. exists l. split; [reflexivity|exact El].
    + exact (IH l0 i eq_refl Hi).
Qed.

Lemma all_distinct_lookup (cs : list vec3) (i j : nat) (ci cj : vec3) :
  all_distinct cs = true -> i <> j -> cs !! i = Some ci -> cs !! j = Some cj ->
  vec_eqb ci cj = false.
Proof.
  revert i j; induction cs as [|c cs IH]; intros i j Hd Hij Hi Hj;
    [rewrite lookup_nil in Hi; discriminate|].
  simpl in Hd. apply andb_true_iff in Hd as [Hall Hd].
  rewrite forallb_forall in Hall.
  destruct i as [|i], j as [|j]; simpl in Hi, Hj; try congruence.
  - injection Hi as <-. apply negb_true_iff, Hall.
    apply list_elem_of_In. exact (list_elem_of_lookup_2 _ _ _ Hj).
  - injection Hj as <-. rewrite vec_eqb_sym. apply negb_true_iff, Hall.
    apply list_elem_of_In. exact (list_elem_of_lookup_2 _ _ _ Hi).
  - exact (IH i j Hd ltac:(congruence) Hi Hj).
Qed.

(** [vertices.index(a)] in a list of vertices at distinct points returns the
    position of the vertex at the point of [a]. *)
Lemma list_index_found (w : world) (vs : list loc) (cs : list vec3) (a : loc) :
  forall (i n : nat) (c : vec3),
  list_coords (heap w) vs = Some cs -> all_distinct cs = true ->
  cs !! i = Some c -> coords_at (heap w) a = Some c ->
  list_index vs a n w = (w, inr (n + i)%nat).
Proof.
  revert cs; induction vs as [|y vs IH]; intros cs i n c Hl Hd Hi Ha; simpl in Hl.
  - injection Hl as <-. rewrite lookup_nil in Hi. discriminate.
  - destruct (coords_at (heap w) y) as [c0|] eqn:Ey; [|discriminate].
    destruct (list_coords (heap w) vs) as [cr|] eqn:Er; [|discriminate].
    injection Hl as <-. simpl in Hd. apply andb_true_iff in Hd as [Hall Hd].
    simpl. destruct i as [|i]; simpl in Hi.
    + injection Hi as ->. rewrite Nat.add_0_r.
      destruct (Nat.eqb y a); [reflexivity|].
      rewrite (bind_inr _ _ _ _ _ (py_eq_vertices w y a c c Ey Ha)), vec_eqb_refl.
      reflexivity.
    + assert (Hne : vec_eqb c0 c = false).
      { rewrite forallb_forall in Hall. apply negb_true_iff, Hall.
        apply list_elem_of_In. exact (list_elem_of_lookup_2 _ _ _ Hi). }
      destruct (Nat.eqb y a) eqn:Eya.
      * apply Nat.eqb_eq in Eya. subst y. rewrite Ey in Ha. injection Ha as ->.
        rewrite vec_eqb_refl in Hne. discriminate.
      * rewrite (bind_inr _ _ _ _ _ (py_eq_vertices w y a c0 c Ey Ha)), Hne.
        rewrite (IH cr i (S n) c eq_refl Hd Hi Ha). f_equal. f_equal. lia.
Qed.

(** ... and raises [ValueError] when no vertex of the list is at that point. *)
Lemma list_index_missing (w : world) (vs : list loc) (cs : list vec3) (a : loc) (d : vec3) :
  forall n : nat,
  list_coords (heap w) vs = Some cs -> Forall (fun c => vec_eqb c d = false) cs ->
  coords_at (heap w) a = Some d ->
  list_index vs a n w = (w, inl (ValueError "x is not in list")).
Proof.
  revert cs; induction vs as [|y vs IH]; intros cs n Hl Hf Ha; simpl in Hl.
  - reflexivity.
  - destruct (coords_at (heap w) y) as [c0|] eqn:Ey; [|discriminate].
    destruct (list_coords (heap w) vs) as [cr|] eqn:Er; [|discriminate].
    injection Hl as <-. inversion Hf as [|? ? Hc0 Hfr]; subst. simpl.
    destruct (Nat.eqb y a) eqn:Eya.
    + apply Nat.eqb_eq in Eya. subst y. rewrite Ey in Ha. injection Ha as ->.
      rewrite vec_eqb_refl in Hc0. discriminate.
    + rewrite (bind_inr _ _ _ _ _ (py_eq_vertices w y a c0 d Ey Ha)), Hc0.
      exact (IH cr (S n) eq_refl Hfr Ha).
Qed.

Lemma BLOCK_EDGES_lookup (k p q : nat) :
  BLOCK_EDGES !! k = Some (p, q) ->
  (p < q < 8)%nat /\ tuple_index BLOCK_EDGES [p; q] 0 = inr k.
Proof.
  intros H.
  do 12 (destruct k as [|k]; [injection H as <- <-; split; [lia|vm_compute; reflexivity]|]).
  discriminate.
Qed.

(** [tuple({i, j})] of two distinct positions of a block is sorted. *)
Lemma set2_tuple_small (i j : nat) :
  (i < 8)%nat -> (j < 8)%nat -> i <> j ->
  set2_tuple i j = if Nat.ltb i j then [i; j] else [j; i].
Proof.
  intros Hi Hj Hij.
  do 8 (destruct i as [|i]; [do 8 (destruct j as [|j]; [try lia; reflexivity|]); lia|]).
  lia.
Qed.

Lemma tuple_index_absent (ps : list (nat * nat)) (p q n : nat) :
  ~ In (p, q) ps -> tuple_index ps [p; q] n = inl (ValueError "tuple.index(x): x not in tuple").
Proof.
  revert n; induction ps as [|[p' q'] ps IH]; intros n Hn; [reflexivity|].
  simpl. rewrite bool_decide_false.
  - apply IH. intros H. apply Hn. right. exact H.
  - intros [= -> ->]. apply Hn. left. reflexivity.
Qed.

Lemma get_v0_ok (w : world) (e : loc) (ed : BlockMesh.edge) (i : Z) :
  heap w !! e = Some (mkCell (Edge ed) i) -> get_v0 e w = (w, inr (v0 ed)).
Proof. intros H. unfold get_v0. unfold_monad. rewrite H. reflexivity. Qed.

Lemma get_v1_ok (w : world) (e : loc) (ed : BlockMesh.edge) (i : Z) :
  heap w !! e = Some (mkCell (Edge ed) i) -> get_v1 e w = (w, inr (v1 ed)).
Proof. intros H. unfold get_v1. unfold_monad. rewrite H. reflexivity. Qed.

Lemma list_setitem_ok {A} (xs : list A) (k : nat) (x : A) :
  (k < List.length xs)%nat -> list_setitem xs k x = inr (<[k := x]> xs).
Proof. intros H. unfold list_setitem. apply Nat.ltb_lt in H. rewrite H. reflexivity. Qed.

(** The positions of an edge-table pair, in either order. *)
Lemma table_positions (k p q i j : nat) :
  BLOCK_EDGES !! k = Some (p, q) -> (i = p /\ j = q) \/ (i = q /\ j = p) ->
  set2_tuple i j = [p; q] /\ bool_decide ([i; j] = [p; q]) = Nat.eqb i p /\
  tuple_index BLOCK_EDGES [p; q] 0 = inr k /\ (i < 8)%nat /\ (j < 8)%nat /\ i <> j.
Proof.
  intros Hk Hij. destruct (BLOCK_EDGES_lookup k p q Hk) as [Hpq Ht].
  destruct Hij as [[-> ->]|[-> ->]].
  - rewrite set2_tuple_small by lia.
    replace (Nat.ltb p q) with true by (symmetry; apply Nat.ltb_lt; lia).
    rewrite Nat.eqb_refl, bool_decide_true by reflexivity.
    repeat split; auto; lia.
  - rewrite set2_tuple_small by lia.
    replace (Nat.ltb q p) with false by (symmetry; apply Nat.ltb_ge; lia).
    replace (Nat.eqb q p) with false by (symmetry; apply Nat.eqb_neq; lia).
    rewrite bool_decide_false by (intros [= E _]; lia).
    repeat split; auto; lia.
Qed.

(** [Block.set_edge] on a block with vertices at distinct points, for an
    edge joining the points of a pair of the edge table: the edge, or its
    inversion when given in the other order, replaces the table entry. *)
Lemma set_edge_spec (w : world) (self : loc) (blk : block) (ib : Z) (e : loc)
    (a b : loc) (d : edge_data) (ie : Z) (cs : list vec3) (i j k p q : nat) (ci cj : vec3) :
  heap w !! self = Some (mkCell (Block blk) ib) ->
  list_coords (heap w) (vertices blk) = Some cs -> all_distinct cs = true ->
  heap w !! e = Some (mkCell (Edge (mkEdge a b d)) ie) ->
  cs !! i = Some ci -> coords_at (heap w) a = Some ci ->
  cs !! j = Some cj -> coords_at (heap w) b = Some cj ->
  BLOCK_EDGES !! k = Some (p, q) -> (i = p /\ j = q) \/ (i = q /\ j = p) ->
  (k < List.length (edges blk))%nat ->
  set_edge self e w =
    if Nat.eqb i p then
      (mkWorld (<[self := mkCell (Block (block_with_edges blk (<[k := e]> (edges blk)))) ib]>
                 (heap w)) (the_mesh w), inr tt)
    else
      (mkWorld (<[self := mkCell (Block (block_with_edges blk
                                          (<[k := fresh (dom (heap w))]> (edges blk)))) ib]>
                 (<[fresh (dom (heap w)) := mkCell (Edge (mkEdge b a (inverted_data d))) (-1)]>
                   (heap w))) (the_mesh w), inr tt).
Proof.
  intros Hself Hcs Hd He Hi Ha Hj Hb Hk Hij Hlen.
  destruct (table_positions k p q i j Hk Hij) as (Hset & Hord & Ht & Hi8 & Hj8 & Hne).
  unfold set_edge.
  rewrite (bind_inr _ _ _ _ _ (load_block_ok w self blk ib Hself)).
  rewrite (bind_inr _ _ _ _ _ (get_v0_ok w e _ ie He)). simpl v0.
  rewrite (bind_inr _ _ _ _ _ (list_index_found w _ cs a i 0 ci Hcs Hd Hi Ha)).
  rewrite (bind_inr _ _ _ _ _ (load_block_ok w self blk ib Hself)).
  rewrite (bind_inr _ _ _ _ _ (get_v1_ok w e _ ie He)). simpl v1.
  rewrite (bind_inr _ _ _ _ _ (list_index_found w _ cs b j 0 cj Hcs Hd Hj Hb)).
  simpl Nat.add. rewrite Hset, Hord, Ht.
  destruct (Nat.eqb i p).
  - rewrite (bind_inr (ret e) _ w w e eq_refl).
    rewrite (bind_inr _ _ _ _ _ (load_block_ok w self blk ib Hself)).
    rewrite (bind_inr (lift (inr k)) _ w w k eq_refl).
    rewrite list_setitem_ok by exact Hlen.
    rewrite (bind_inr (lift (inr _)) _ w w _ eq_refl).
    rewrite (set_obj_ok w self _ _ Hself). reflexivity.
  - pose proof (all_distinct_lookup cs j i cj ci Hd ltac:(congruence) Hj Hi) as Hji.
    set (l := fresh (dom (heap w))).
    set (w1 := mkWorld (<[l := mkCell (Edge (mkEdge b a (inverted_data d))) (-1)]> (heap w))
                       (the_mesh w)).
    assert (Hinv : invert e w = (w1, inr l)).
    { rewrite (invert_spec w e _ ie He). simpl.
      rewrite (new_edge_spec w b a cj ci _ Hb Ha), Hji. reflexivity. }
    assert (Hs1 : heap w1 !! self = Some (mkCell (Block blk) ib)).
    { simpl. rewrite lookup_insert_ne by exact (in_dom_ne_fresh _ _ _ Hself). exact Hself. }
    rewrite (bind_inr _ _ _ _ _ Hinv).
    rewrite (bind_inr _ _ _ _ _ (load_block_ok w1 self blk ib Hs1)).
    rewrite (bind_inr (lift (inr k)) _ w1 w1 k eq_refl).
    rewrite list_setitem_ok by exact Hlen.
    rewrite (bind_inr (lift (inr _)) _ w1 w1 _ eq_refl).
    rewrite (set_obj_ok w1 self _ _ Hs1). reflexivity.
Qed.

(** [Block.edge(a, b)], [a] and [b] at the points of a pair of the edge
    table: the stored edge of that pair if it starts at the point of [a],
    its inversion otherwise. *)
Lemma edge_spec (w : world) (self : loc) (blk : block) (ib : Z) (cs : list vec3)
    (a b : loc) (i j k p q : nat) (ci cj : vec3) (x : loc) (ex : BlockMesh.edge)
    (ix : Z) (c0 : vec3) :
  heap w !! self = Some (mkCell (Block blk) ib) ->
  list_coords (heap w) (vertices blk) = Some cs -> all_distinct cs = true ->
  cs !! i = Some ci -> coords_at (heap w) a = Some ci ->
  cs !! j = Some cj -> coords_at (heap w) b = Some cj ->
  BLOCK_EDGES !! k = Some (p, q) -> (i = p /\ j = q) \/ (i = q /\ j = p) ->
  edges blk !! k = Some x -> heap w !! x = Some (mkCell (Edge ex) ix) ->
  coords_at (heap w) (v0 ex) = Some c0 ->
  BlockMethods.edge self a b w = if vec_eqb c0 ci then (w, inr x) else invert x w.
Proof.
  intros Hself Hcs Hd Hi Ha Hj Hb Hk Hij Hx Hex Hc0.
  destruct (table_positions k p q i j Hk Hij) as (Hset & _ & Ht & _).
  unfold BlockMethods.edge.
  rewrite (bind_inr _ _ _ _ _ (load_block_ok w self blk ib Hself)).
  rewrite (bind_inr _ _ _ _ _ (list_index_found w _ cs a i 0 ci Hcs Hd Hi Ha)).
  rewrite (bind_inr _ _ _ _ _ (load_block_ok w self blk ib Hself)).
  rewrite (bind_inr _ _ _ _ _ (list_index_found w _ cs b j 0 cj Hcs Hd Hj Hb)).
  simpl Nat.add. rewrite Hset.
  rewrite (bind_inr _ _ _ _ _ (load_block_ok w self blk ib Hself)).
  rewrite Ht. rewrite (bind_inr (lift (inr k)) _ w w k eq_refl).
  unfold list_getitem. rewrite Hx.
  rewrite (bind_inr (lift (inr x)) _ w w x eq_refl).
  rewrite (bind_inr _ _ _ _ _ (get_v0_ok w x ex ix Hex)).
  rewrite (bind_inr _ _ _ _ _ (py_eq_vertices w _ a c0 ci Hc0 Ha)).
  destruct (vec_eqb c0 ci); reflexivity.
Qed.

Lemma coords_at_insert_nonvertex (h : gmap loc cell) (l : loc) (c : cell) :
  vertex_coords (obj_of c) = None -> coords_at h l = None ->
  forall y, coords_at (<[l := c]> h) y = coords_at h y.
Proof.
  intros Hc Hl y. unfold coords_at in *. destruct (decide (y = l)) as [->|Hne].
  - rewrite lookup_insert_eq. rewrite Hc. destruct (h !! l); [exact (eq_sym Hl)|reflexivity].
  - rewrite lookup_insert_ne by congruence. reflexivity.
Qed.

Lemma list_coords_ext (h h' : gmap loc cell) (vs : list loc) :
  (forall y, coords_at h' y = coords_at h y) -> list_coords h' vs = list_coords h vs.
Proof.
  intros H. induction vs as [|l vs IH]; simpl; [reflexivity|]. rewrite H, IH. reflexivity.
Qed.

Lemma coords_at_block (h : gmap loc cell) (l : loc) (b : block) (i : Z) :
  h !! l = Some (mkCell (Block b) i) -> coords_at h l = None.
Proof. intros H. unfold coords_at. rewrite H. reflexivity. Qed.

Lemma coords_at_fresh (h : gmap loc cell) : coords_at h (fresh (dom h)) = None.
Proof. unfold coords_at. rewrite fresh_not_in. reflexivity. Qed.

(** X1. On a block whose vertices are at distinct points, [Block.set_edge(e)]
    for an edge [e] joining the points of the vertices at a pair of the
    edge table succeeds; [Block.edge(e.v0, e.v1)] afterwards returns an edge
    with the same extremities and data as [e], the object [e] itself when
    it was given in table order. *)
Theorem set_edge_then_edge (w : world) (self : loc) (blk : block) (ib : Z) (e : loc)
    (a b : loc) (d : edge_data) (ie : Z) (cs : list vec3) (i j k p q : nat) (ci cj : vec3) :
  heap w !! self = Some (mkCell (Block blk) ib) ->
  list_coords (heap w) (vertices blk) = Some cs -> all_distinct cs = true ->
  heap w !! e = Some (mkCell (Edge (mkEdge a b d)) ie) ->
  cs !! i = Some ci -> coords_at (heap w) a = Some ci ->
  cs !! j = Some cj -> coords_at (heap w) b = Some cj ->
  BLOCK_EDGES !! k = Some (p, q) -> (i = p /\ j = q) \/ (i = q /\ j = p) ->
  (k < List.length (edges blk))%nat ->
  exists w1 w2 r,
    set_edge self e w = (w1, inr tt) /\
    BlockMethods.edge self a b w1 = (w2, inr r) /\
    option_map obj_of (heap w2 !! r) = Some (Edge (mkEdge a b d)) /\
    (i < j -> r = e)%nat.
Proof.
  intros Hself Hcs Hd He Hi Ha Hj Hb Hk Hij Hlen.
  destruct (table_positions k p q i j Hk Hij) as (_ & _ & _ & _ & _ & Hne).
  destruct (BLOCK_EDGES_lookup k p q Hk) as [Hpq _].
  pose proof (set_edge_spec w self blk ib e a b d ie cs i j k p q ci cj
                Hself Hcs Hd He Hi Ha Hj Hb Hk Hij Hlen) as Hs.
  assert (Hes : e <> self) by (intros ->; rewrite Hself in He; discriminate).
  destruct (Nat.eqb i p) eqn:Eip.
  - apply Nat.eqb_eq in Eip.
    set (blk1 := block_with_edges blk (<[k := e]> (edges blk))).
    set (w1 := mkWorld (<[self := mkCell (Block blk1) ib]> (heap w)) (the_mesh w)).
    assert (Hco : forall y, coords_at (heap w1) y = coords_at (heap w) y)
      by (intros y; apply (coords_at_insert_nonvertex (heap w) self);
          [reflexivity|exact (coords_at_block _ _ _ _ Hself)]).
    assert (Hs1 : heap w1 !! self = Some (mkCell (Block blk1) ib)) by apply lookup_insert_eq.
    assert (He1 : heap w1 !! e = Some (mkCell (Edge (mkEdge a b d)) ie))
      by (simpl; rewrite lookup_insert_ne by congruence; exact He).
    assert (Hx : edges blk1 !! k = Some e) by (apply list_lookup_insert_eq; exact Hlen).
    pose proof (edge_spec w1 self blk1 ib cs a b i j k p q ci cj e (mkEdge a b d) ie ci
                  Hs1 ltac:(rewrite (list_coords_ext (heap w)) by exact Hco; exact Hcs) Hd
                  Hi ltac:(rewrite Hco; exact Ha) Hj ltac:(rewrite Hco; exact Hb) Hk Hij
                  Hx He1 ltac:(simpl; rewrite Hco; exact Ha)) as Hed.
    rewrite vec_eqb_refl in Hed.
    exists w1, w1, e. split; [exact Hs|]. split; [exact Hed|].
    split; [rewrite He1; reflexivity|]. intros _. reflexivity.
  - assert (Hiq : i = q /\ j = p) by (destruct Hij as [[-> ->]|H]; [rewrite Nat.eqb_refl in Eip; discriminate|exact H]).
    set (l := fresh (dom (heap w))).
    set (h0 := <[l := mkCell (Edge (mkEdge b a (inverted_data d))) (-1)]> (heap w)).
    set (blk1 := block_with_edges blk (<[k := l]> (edges blk))).
    set (w1 := mkWorld (<[self := mkCell (Block blk1) ib]> h0) (the_mesh w)).
    assert (Hself0 : h0 !! self = Some (mkCell (Block blk) ib))
      by (unfold h0; rewrite lookup_insert_ne by exact (in_dom_ne_fresh _ _ _ Hself); exact Hself).
    assert (Hco0 : forall y, coords_at h0 y = coords_at (heap w) y)
      by (intros y; apply (coords_at_insert_nonvertex (heap w) l); [reflexivity|apply coords_at_fresh]).
    assert (Hco : forall y, coords_at (heap w1) y = coords_at (heap w) y).
    { intros y. simpl. rewrite (coords_at_insert_nonvertex h0 self); [apply Hco0|reflexivity|].
      exact (coords_at_block _ _ _ _ Hself0). }
    assert (Hls : l <> self) by exact (in_dom_ne_fresh _ _ _ Hself).
    assert (Hs1 : heap w1 !! self = Some (mkCell (Block blk1) ib)) by apply lookup_insert_eq.
    assert (Hl1 : heap w1 !! l = Some (mkCell (Edge (mkEdge b a (inverted_data d))) (-1)))
      by (simpl; rewrite lookup_insert_ne by congruence; apply lookup_insert_eq).
    assert (Hx : edges blk1 !! k = Some l) by (apply list_lookup_insert_eq; exact Hlen).
    pose proof (edge_spec w1 self blk1 ib cs a b i j k p q ci cj l _ (-1) cj
                  Hs1 ltac:(rewrite (list_coords_ext (heap w)) by exact Hco; exact Hcs) Hd
                  Hi ltac:(rewrite Hco; exact Ha) Hj ltac:(rewrite Hco; exact Hb) Hk Hij
                  Hx Hl1 ltac:(simpl; rewrite Hco; exact Hb)) as Hed.
    rewrite (all_distinct_lookup cs j i cj ci Hd ltac:(congruence) Hj Hi) in Hed.
    rewrite (invert_spec w1 l _ (-1) Hl1) in Hed. simpl in Hed.
    rewrite inverted_data_involutive in Hed.
    rewrite (new_edge_spec w1 a b ci cj d ltac:(rewrite Hco; exact Ha) ltac:(rewrite Hco; exact Hb))
      in Hed.
    rewrite (all_distinct_lookup cs i j ci cj Hd Hne Hi Hj) in Hed.
    eexists w1, _, _. split; [exact Hs|]. split; [exact Hed|].
    split; [simpl; rewrite lookup_insert_eq; reflexivity|].
    intros Hlt. lia.
Qed.

(** X2. For two vertices of a block at the points of a pair of the edge table,
    whose stored table edge runs in table order, [Block.edge(a, b)] returns
    an edge starting at the point of [a] and ending at the point of [b]: the
    stored edge itself (world unchanged) when [a] comes first in the table,
    otherwise a new inverted copy of it. *)
Theorem edge_follows_arguments (w : world) (self : loc) (blk : block) (ib : Z)
    (cs : list vec3) (a b : loc) (i j k p q : nat) (ci cj : vec3) (x : loc)
    (p0 q0 : loc) (dx : edge_data) (ix : Z) :
  heap w !! self = Some (mkCell (Block blk) ib) ->
  list_coords (heap w) (vertices blk) = Some cs -> all_distinct cs = true ->
  cs !! i = Some ci -> coords_at (heap w) a = Some ci ->
  cs !! j = Some cj -> coords_at (heap w) b = Some cj ->
  BLOCK_EDGES !! k = Some (p, q) -> (i = p /\ j = q) \/ (i = q /\ j = p) ->
  edges blk !! k = Some x -> heap w !! x = Some (mkCell (Edge (mkEdge p0 q0 dx)) ix) ->
  cs !! p = coords_at (heap w) p0 -> cs !! q = coords_at (heap w) q0 ->
  exists w' r a' b' d',
    BlockMethods.edge self a b w = (w', inr r) /\
    option_map obj_of (heap w' !! r) = Some (Edge (mkEdge a' b' d')) /\
    coords_at (heap w) a' = Some ci /\ coords_at (heap w) b' = Some cj /\
    (i < j -> w' = w /\ r = x)%nat /\
    (j < i -> heap w !! r = None /\ a' = q0 /\ b' = p0 /\ d' = inverted_data dx)%nat.
Proof.
  intros Hself Hcs Hd Hi Ha Hj Hb Hk Hij Hx Hex Hp Hq.
  destruct (BLOCK_EDGES_lookup k p q Hk) as [Hpq _].
  destruct Hij as [[-> ->]|[-> ->]].
  - pose proof (edge_spec w self blk ib cs a b p q k p q ci cj x _ ix ci
                  Hself Hcs Hd Hi Ha Hj Hb Hk (or_introl (conj eq_refl eq_refl)) Hx Hex
                  ltac:(simpl; rewrite <- Hp; exact Hi)) as Hed.
    rewrite vec_eqb_refl in Hed.
    exists w, x, p0, q0, dx. split; [exact Hed|]. split; [rewrite Hex; reflexivity|].
    split; [rewrite <- Hp; exact Hi|]. split; [rewrite <- Hq; exact Hj|].
    split; [intros _; split; reflexivity|]. intros Hlt. lia.
  - pose proof (edge_spec w self blk ib cs a b q p k p q ci cj x _ ix cj
                  Hself Hcs Hd Hi Ha Hj Hb Hk (or_intror (conj eq_refl eq_refl)) Hx Hex
                  ltac:(simpl; rewrite <- Hp; exact Hj)) as Hed.
    rewrite (all_distinct_lookup cs p q cj ci Hd ltac:(lia) Hj Hi) in Hed.
    rewrite (invert_spec w x _ ix Hex) in Hed. simpl in Hed.
    rewrite (new_edge_spec w q0 p0 ci cj _ ltac:(rewrite <- Hq; exact Hi)
               ltac:(rewrite <- Hp; exact Hj)) in Hed.
    rewrite (all_distinct_lookup cs q p ci cj Hd ltac:(lia) Hi Hj) in Hed.
    eexists _, _, q0, p0, _. split; [exact Hed|].
    split; [simpl; rewrite lookup_insert_eq; reflexivity|].
    split; [rewrite <- Hq; exact Hi|]. split; [rewrite <- Hp; exact Hj|].
    split; [intros Hlt; lia|]. intros _. split; [apply fresh_not_in|].
    repeat split.
Qed.

(** X3. [Block.set_edge(e)] on a block of eight vertices at distinct points
    raises [ValueError] and changes nothing when an extremity of [e] is at no
    vertex's point; when both are at vertices but not at a pair of the edge
    table it raises [ValueError] from [BLOCK_EDGES.index], leaving the block
    and the mesh as they are (an inverted copy of [e] has been allocated when
    [e] runs against the vertex order). *)
Theorem set_edge_errors (w : world) (self : loc) (blk : block) (ib : Z) (cs : list vec3)
    (e a b : loc) (d : edge_data) (ie : Z) :
  heap w !! self = Some (mkCell (Block blk) ib) ->
  list_coords (heap w) (vertices blk) = Some cs -> all_distinct cs = true ->
  List.length (vertices blk) = 8%nat ->
  heap w !! e = Some (mkCell (Edge (mkEdge a b d)) ie) ->
  (forall ca, coords_at (heap w) a = Some ca -> Forall (fun c => vec_eqb c ca = false) cs ->
     set_edge self e w = (w, inl (ValueError "x is not in list"))) /\
  (forall i ci cb, cs !! i = Some ci -> coords_at (heap w) a = Some ci ->
     coords_at (heap w) b = Some cb -> Forall (fun c => vec_eqb c cb = false) cs ->
     set_edge self e w = (w, inl (ValueError "x is not in list"))) /\
  (forall i j ci cj, cs !! i = Some ci -> coords_at (heap w) a = Some ci ->
     cs !! j = Some cj -> coords_at (heap w) b = Some cj -> i <> j ->
     ~ In (Nat.min i j, Nat.max i j) BLOCK_EDGES ->
     exists w', set_edge self e w = (w', inl (ValueError "tuple.index(x): x not in tuple")) /\
       heap w' !! self = heap w !! self /\ the_mesh w' = the_mesh w /\
       (i < j -> w' = w)%nat).
Proof.
  intros Hself Hcs Hd H8 He.
  pose proof (list_coords_length _ _ _ Hcs) as Hlc.
  split; [|split].
  - intros ca Ha Hf. unfold set_edge.
    rewrite (bind_inr _ _ _ _ _ (load_block_ok w self blk ib Hself)).
    rewrite (bind_inr _ _ _ _ _ (get_v0_ok w e _ ie He)). simpl v0.
    rewrite (bind_inl _ _ _ _ _ (list_index_missing w _ cs a ca 0 Hcs Hf Ha)).
    reflexivity.
  - intros i ci cb Hi Ha Hb Hf. unfold set_edge.
    rewrite (bind_inr _ _ _ _ _ (load_block_ok w self blk ib Hself)).
    rewrite (bind_inr _ _ _ _ _ (get_v0_ok w e _ ie He)). simpl v0.
    rewrite (bind_inr _ _ _ _ _ (list_index_found w _ cs a i 0 ci Hcs Hd Hi Ha)).
    rewrite (bind_inr _ _ _ _ _ (load_block_ok w self blk ib Hself)).
    rewrite (bind_inr _ _ _ _ _ (get_v1_ok w e _ ie He)). simpl v1.
    rewrite (bind_inl _ _ _ _ _ (list_index_missing w _ cs b cb 0 Hcs Hf Hb)).
    reflexivity.
  - intros i j ci cj Hi Ha Hj Hb Hne Hn.
    assert (Hi8 : (i < 8)%nat) by (apply lookup_lt_Some in Hi; lia).
    assert (Hj8 : (j < 8)%nat) by (apply lookup_lt_Some in Hj; lia).
    unfold set_edge.
    rewrite (bind_inr _ _ _ _ _ (load_block_ok w self blk ib Hself)).
    rewrite (bind_inr _ _ _ _ _ (get_v0_ok w e _ ie He)). simpl v0.
    rewrite (bind_inr _ _ _ _ _ (list_index_found w _ cs a i 0 ci Hcs Hd Hi Ha)).
    rewrite (bind_inr _ _ _ _ _ (load_block_ok w self blk ib Hself)).
    rewrite (bind_inr _ _ _ _ _ (get_v1_ok w e _ ie He)). simpl v1.
    rewrite (bind_inr _ _ _ _ _ (list_index_found w _ cs b j 0 cj Hcs Hd Hj Hb)).
    simpl Nat.add. rewrite (set2_tuple_small i j Hi8 Hj8 Hne).
    destruct (Nat.ltb i j) eqn:Eij.
    + apply Nat.ltb_lt in Eij.
      rewrite bool_decide_true by reflexivity.
      rewrite (bind_inr (ret e) _ w w e eq_refl).
      rewrite (bind_inr _ _ _ _ _ (load_block_ok w self blk ib Hself)).
      replace (Nat.min i j) with i in Hn by lia. replace (Nat.max i j) with j in Hn by lia.
      rewrite (tuple_index_absent BLOCK_EDGES i j 0 Hn).
      exists w. split; [reflexivity|]. split; [reflexivity|]. split; reflexivity.
    + apply Nat.ltb_ge in Eij.
      rewrite bool_decide_false by (intros [= E _]; lia).
      pose proof (all_distinct_lookup cs j i cj ci Hd ltac:(congruence) Hj Hi) as Hji.
      set (l := fresh (dom (heap w))).
      set (w1 := mkWorld (<[l := mkCell (Edge (mkEdge b a (inverted_data d))) (-1)]> (heap w))
                         (the_mesh w)).
      assert (Hinv : invert e w = (w1, inr l)).
      { rewrite (invert_spec w e _ ie He). simpl.
        rewrite (new_edge_spec w b a cj ci _ Hb Ha), Hji. reflexivity. }
      assert (Hs1 : heap w1 !! self = Some (mkCell (Block blk) ib)).
      { simpl. rewrite lookup_insert_ne by exact (in_dom_ne_fresh _ _ _ Hself). exact Hself. }
      rewrite (bind_inr _ _ _ _ _ Hinv).
      rewrite (bind_inr _ _ _ _ _ (load_block_ok w1 self blk ib Hs1)).
      replace (Nat.min i j) with j in Hn by lia. replace (Nat.max i j) with i in Hn by lia.
      rewrite (tuple_index_absent BLOCK_EDGES j i 0 Hn).
      exists w1. split; [reflexivity|]. split; [rewrite Hs1, Hself; reflexivity|].
      split; [reflexivity|]. intros Hlt. lia.
Qed.

Lemma list_coords_lookup_loc (h : gmap loc cell) (vs : list loc) (cs : list vec3) (i : nat) (u : loc) :
  list_coords h vs = Some cs -> vs !! i = Some u ->
  exists c, cs !! i = Some c /\ coords_at h u = Some c.
Proof.
  revert cs i; induction vs as [|l vs IH]; intros cs i H Hi; simpl in H.
  - rewrite lookup_nil in Hi. discriminate.
  - destruct (coords_at h l) eqn:El, (list_coords h vs) eqn:E; try discriminate.
    injection H as <-. destruct i as [|i]; simpl in Hi.
    + injection Hi as <-. exists v. split; [reflexivity|exact El].
    + exact (IH l0 i eq_refl Hi).
Qed.

(** [Block.face] is the dict lookup followed by one list subscript per id. *)
Lemma face_inr (blk : block) (label : string) (vs : list loc) :
  face blk label = inr vs ->
  exists ids, dict_get FACE_MAPPING label = Some ids /\
    Forall2 (fun i v => vertices blk !! i = Some v) ids vs.
Proof.
  unfold face. destruct (dict_get FACE_MAPPING label) as [ids|]; [|discriminate].
  intros H. exists ids. split; [reflexivity|]. revert vs H.
  induction ids as [|i ids IH]; intros vs H.
  - injection H as <-. constructor.
  - unfold list_getitem in H at 1. destruct (vertices blk !! i) as [v|] eqn:Ev; [|discriminate].
    match type of H with
    | match ?g with _ => _ end = _ => destruct g as [|r] eqn:Eg; [discriminate|]
    end.
    injection H as <-. constructor; [exact Ev|]. exact (IH r eq_refl).
Qed.

Lemma face_go_all (blk : block) (ids : list nat) :
  Forall (fun i => (i < List.length (vertices blk))%nat) ids ->
  exists vs, (fix go (ids : list nat) : raised + list loc :=
         match ids with
         | [] => inr []
         | i :: rest =>
             match list_getitem (vertices blk) i with
             | inl e => inl (Raised e)
             | inr v => match go rest with
                        | inl e => inl e
                        | inr vs => inr (v :: vs)
                        end
             end
         end) ids = inr vs /\ Forall2 (fun i v => vertices blk !! i = Some v) ids vs.
Proof.
  induction ids as [|i ids IH]; intros Hf.
  - exists []. split; [reflexivity|constructor].
  - inversion Hf as [|? ? Hi Hr]; subst.
    destruct (lookup_lt_is_Some_2 (vertices blk) i Hi) as [v Hv].
    destruct (IH Hr) as (vs & Hg & H2).
    exists (v :: vs). unfold list_getitem at 1. rewrite Hv, Hg.
    split; [reflexivity|]. constructor; assumption.
Qed.

(** Every id of the face table is below 8, at least one id of each face is
    at least 3, and two ids following each other around a face are a pair of
    the edge table. *)
Lemma FACE_MAPPING_ids (label : string) (ids : list nat) :
  dict_get FACE_MAPPING label = Some ids ->
  List.length ids = 4%nat /\ Forall (fun i => (i < 8)%nat) ids /\ Exists (fun i => (3 <= i)%nat) ids /\
  forall n i j, ids !! n = Some i -> ids !! ((n + 1) mod 4) = Some j ->
    i <> j /\ In (Nat.min i j, Nat.max i j) BLOCK_EDGES.
Proof.
  unfold dict_get, FACE_MAPPING.
  repeat match goal with
         | |- context [String.eqb label ?s] => destruct (String.eqb label s)
         end; intros H; try discriminate; injection H as <-;
  (split; [reflexivity|]); (split; [repeat (apply List.Forall_cons; [lia|]); apply List.Forall_nil|]);
  (split; [repeat (first [apply List.Exists_cons_hd; lia | apply List.Exists_cons_tl]) |]);
  intros n i j Hi Hj;
  (do 4 (destruct n as [|n]; [simpl in Hi, Hj; injection Hi as <-; injection Hj as <-;
                               split; [lia | simpl; tauto] |]));
  rewrite lookup_ge_None_2 in Hi by (simpl; lia); discriminate.
Qed.

(** [Block.edge] succeeds on two vertices of the block at the points of a
    pair of the edge table, when each stored edge joins two distinct points
    of vertices. *)
Lemma edge_table_ok (w : world) (self : loc) (blk : block) (ib : Z) (cs : list vec3)
    (a b : loc) (i j k p q : nat) (ci cj : vec3) :
  heap w !! self = Some (mkCell (Block blk) ib) ->
  list_coords (heap w) (vertices blk) = Some cs -> all_distinct cs = true ->
  List.length (edges blk) = 12%nat -> Forall (fun x => edge_ok (heap w) x = true) (edges blk) ->
  cs !! i = Some ci -> coords_at (heap w) a = Some ci ->
  cs !! j = Some cj -> coords_at (heap w) b = Some cj ->
  BLOCK_EDGES !! k = Some (p, q) -> (i = p /\ j = q) \/ (i = q /\ j = p) ->
  exists w' r ed, BlockMethods.edge self a b w = (w', inr r) /\
    option_map obj_of (heap w' !! r) = Some (Edge ed).
Proof.
  intros Hself Hcs Hd Hlen Hok Hi Ha Hj Hb Hk Hij.
  assert (Hk12 : (k < 12)%nat) by (apply lookup_lt_Some in Hk; exact Hk).
  destruct (lookup_lt_is_Some_2 (edges blk) k ltac:(lia)) as [x Hx].
  pose proof (proj1 (List.Forall_forall _ _) Hok x
                (proj1 (list_elem_of_In _ _) (list_elem_of_lookup_2 _ _ _ Hx))) as Hex.
  unfold edge_ok in Hex.
  destruct (heap w !! x) as [[o ix]|] eqn:Ex; [|discriminate].
  destruct o as [| |ex| | | | | |]; try discriminate.
  destruct (coords_at (heap w) (v0 ex)) as [c0|] eqn:E0; [|discriminate].
  destruct (coords_at (heap w) (v1 ex)) as [c1|] eqn:E1; [|discriminate].
  apply negb_true_iff in Hex.
  rewrite (edge_spec w self blk ib cs a b i j k p q ci cj x ex ix c0
             Hself Hcs Hd Hi Ha Hj Hb Hk Hij Hx Ex E0).
  destruct (vec_eqb c0 ci).
  - exists w, x, ex. split; [reflexivity|]. rewrite Ex. reflexivity.
  - rewrite (invert_spec w x ex ix Ex).
    rewrite (new_edge_spec w (v1 ex) (v0 ex) c1 c0 _ E1 E0), vec_eqb_sym, Hex.
    eexists _, _, _. split; [reflexivity|]. simpl. rewrite lookup_insert_eq. reflexivity.
Qed.

(** X4. [Block.face(label)] raises [KeyError] exactly for the labels outside the
    six face names; for a face name it returns four of the block's vertices
    when the block has at least eight, and raises [IndexError] when it has at
    most three. *)
Theorem face_errors (blk : block) (label : string) :
  (face blk label = inl (KeyError label) <-> ~ In label (map fst FACE_MAPPING)) /\
  (In label (map fst FACE_MAPPING) ->
     ((8 <= List.length (vertices blk))%nat ->
        exists vs, face blk label = inr vs /\ List.length vs = 4%nat /\
          Forall (fun v => In v (vertices blk)) vs) /\
     ((List.length (vertices blk) <= 3)%nat ->
        face blk label = inl (Raised (IndexError "list index out of range")))).
Proof.
  assert (Hdict : dict_get FACE_MAPPING label = None <-> ~ In label (map fst FACE_MAPPING)).
  { unfold FACE_MAPPING. simpl.
    repeat match goal with
           | |- context [String.eqb label ?s] => destruct (String.eqb label s) eqn:?
           end;
    repeat match goal with H : String.eqb _ _ = true |- _ => apply String.eqb_eq in H end;
    repeat match goal with H : String.eqb _ _ = false |- _ => apply String.eqb_neq in H end;
    split; intros H; try discriminate; try tauto; try (exfalso; apply H; subst; tauto).
    intros [E|[E|[E|[E|[E|[E|[]]]]]]]; congruence. }
  split.
  - rewrite <- Hdict. unfold face. destruct (dict_get FACE_MAPPING label) as [ids|] eqn:E.
    + split; [|discriminate]. intros H.
      exfalso. revert H. clear. induction ids as [|i ids IH]; [discriminate|].
      unfold list_getitem at 1. destruct (vertices blk !! i); [|discriminate].
      match goal with
      | |- match ?g with _ => _ end = _ -> False => destruct g; [exact IH|discriminate]
      end.
    + split; reflexivity.
  - intros Hin. destruct (dict_get FACE_MAPPING label) as [ids|] eqn:E;
      [|exfalso; apply (proj1 Hdict eq_refl Hin)].
    destruct (FACE_MAPPING_ids label ids E) as (H4 & H8 & H3 & _).
    split.
    + intros Hlen. unfold face. rewrite E.
      assert (H8' : Forall (fun i => (i < List.length (vertices blk))%nat) ids).
      { apply List.Forall_forall. intros i Hi.
        pose proof (proj1 (List.Forall_forall _ _) H8 i Hi) as Hi8. cbv beta in Hi8. lia. }
      destruct (face_go_all blk ids H8') as (vs & Hg & H2).
      exists vs. split; [exact Hg|]. split.
      * rewrite <- (Forall2_length _ _ _ H2). exact H4.
      * apply List.Forall_forall. intros v Hv.
        apply list_elem_of_In in Hv. apply list_elem_of_lookup_1 in Hv as [n Hn].
        destruct (Forall2_lookup_r _ _ _ _ _ H2 Hn) as (i & _ & Hi).
        apply list_elem_of_In. exact (list_elem_of_lookup_2 _ _ _ Hi).
    + intros Hlen. unfold face. rewrite E. clear E H4 H8 Hdict Hin.
      induction ids as [|i ids IH]; [inversion H3|].
      unfold list_getitem at 1.
      inversion H3 as [? ? Hi|? ? Hr]; subst.
      * rewrite lookup_ge_None_2 by lia. reflexivity.
      * destruct (vertices blk !! i); [|reflexivity].
        rewrite (IH Hr). reflexivity.
Qed.

(** X5. On a block with vertices at distinct points and twelve stored edges,
    each joining two distinct points, [Block.edge(u, v)] succeeds and returns
    an edge object for any two vertices [u], [v] that follow each other
    (cyclically) in a face returned by [Block.face]. *)
Theorem face_sides_are_edges (w : world) (self : loc) (blk : block) (ib : Z) (cs : list vec3)
    (label : string) (vs : list loc) (n : nat) (u v : loc) :
  heap w !! self = Some (mkCell (Block blk) ib) ->
  list_coords (heap w) (vertices blk) = Some cs -> all_distinct cs = true ->
  List.length (edges blk) = 12%nat -> Forall (fun x => edge_ok (heap w) x = true) (edges blk) ->
  face blk label = inr vs -> vs !! n = Some u -> vs !! ((n + 1) mod 4) = Some v ->
  exists w' r ed, BlockMethods.edge self u v w = (w', inr r) /\
    option_map obj_of (heap w' !! r) = Some (Edge ed).
Proof.
  intros Hself Hcs Hd Hlen Hok Hf Hu Hv.
  destruct (face_inr blk label vs Hf) as (ids & Hids & H2).
  destruct (FACE_MAPPING_ids label ids Hids) as (_ & _ & _ & Hpairs).
  destruct (Forall2_lookup_r _ _ _ _ _ H2 Hu) as (i & Hi & Hui).
  destruct (Forall2_lookup_r _ _ _ _ _ H2 Hv) as (j & Hj & Hvj).
  destruct (Hpairs n i j Hi Hj) as [Hne Hin].
  apply list_elem_of_In in Hin. apply list_elem_of_lookup_1 in Hin as [k Hk].
  destruct (list_coords_lookup_loc _ _ _ i u Hcs Hui) as (ci & Hci & Hu').
  destruct (list_coords_lookup_loc _ _ _ j v Hcs Hvj) as (cj & Hcj & Hv').
  apply (edge_table_ok w self blk ib cs u v i j k (Nat.min i j) (Nat.max i j) ci cj
           Hself Hcs Hd Hlen Hok Hci Hu' Hcj Hv' Hk).
  destruct (Nat.lt_ge_cases i j); [left|right]; split; lia.
Qed.

Lemma set_edge_then_edge_witness :
  exists w1 w2 r,
    set_edge 8 30 spare_edge_world = (w1, inr tt) /\
    BlockMethods.edge 8 1 0 w1 = (w2, inr r) /\
    option_map obj_of (heap w2 !! r) =
      Some (Edge (mkEdge 1 0 (SequenceEdge Spline [V 1 0 1; V 0 0 1]))) /\
    (1 < 0 -> r = 30)%nat.
Proof.
  apply (set_edge_then_edge spare_edge_world 8 meshed_block (-1) 30 1 0
           (SequenceEdge Spline [V 1 0 1; V 0 0 1]) (-1) unit_cube 1 0 0 0 1
           (V 1 0 0) (V 0 0 0));
    try (vm_compute; reflexivity).
  - right. split; reflexivity.
  - vm_compute. lia.
Defined.

Lemma edge_follows_arguments_witness :
  exists w' r a' b' d',
    BlockMethods.edge 8 1 0 meshed_world = (w', inr r) /\
    option_map obj_of (heap w' !! r) = Some (Edge (mkEdge a' b' d')) /\
    coords_at (heap meshed_world) a' = Some (V 1 0 0) /\
    coords_at (heap meshed_world) b' = Some (V 0 0 0) /\
    (1 < 0 -> w' = meshed_world /\ r = 9)%nat /\
    (0 < 1 -> heap meshed_world !! r = None /\ a' = 1 /\ b' = 0 /\ d' = inverted_data LineEdge)%nat.
Proof.
  apply (edge_follows_arguments meshed_world 8 meshed_block (-1) unit_cube 1 0 1 0 0 0 1
           (V 1 0 0) (V 0 0 0) 9 0 1 LineEdge (-1));
    try (vm_compute; reflexivity).
  right. split; reflexivity.
Defined.

Lemma set_edge_errors_witness :
  (forall ca, coords_at (heap spare_edge_world) 1 = Some ca ->
     Forall (fun c => vec_eqb c ca = false) unit_cube ->
     set_edge 8 30 spare_edge_world = (spare_edge_world, inl (ValueError "x is not in list"))) /\
  (forall i ci cb, unit_cube !! i = Some ci -> coords_at (heap spare_edge_world) 1 = Some ci ->
     coords_at (heap spare_edge_world) 0 = Some cb ->
     Forall (fun c => vec_eqb c cb = false) unit_cube ->
     set_edge 8 30 spare_edge_world = (spare_edge_world, inl (ValueError "x is not in list"))) /\
  (forall i j ci cj, unit_cube !! i = Some ci -> coords_at (heap spare_edge_world) 1 = Some ci ->
     unit_cube !! j = Some cj -> coords_at (heap spare_edge_world) 0 = Some cj -> i <> j ->
     ~ In (Nat.min i j, Nat.max i j) BLOCK_EDGES ->
     exists w', set_edge 8 30 spare_edge_world =
                  (w', inl (ValueError "tuple.index(x): x not in tuple")) /\
       heap w' !! 8 = heap spare_edge_world !! 8 /\
       the_mesh w' = the_mesh spare_edge_world /\
       (i < j -> w' = spare_edge_world)%nat).
Proof.
  apply (set_edge_errors spare_edge_world 8 meshed_block (-1) unit_cube 30 1 0
           (SequenceEdge Spline [V 1 0 1; V 0 0 1]) (-1));
    vm_compute; reflexivity.
Defined.

Lemma face_errors_witness :
  In "top" (map fst FACE_MAPPING) /\
  exists vs, face meshed_block "top" = inr vs /\ List.length vs = 4%nat /\
    Forall (fun v => In v (vertices meshed_block)) vs.
Proof.
  assert (Hin : In "top" (map fst FACE_MAPPING)) by (simpl; tauto).
  split; [exact Hin|].
  apply (proj1 (proj2 (face_errors meshed_block "top") Hin)).
  vm_compute. lia.
Defined.

Lemma face_sides_are_edges_witness :
  exists w' r ed, BlockMethods.edge 8 7 4 meshed_world = (w', inr r) /\
    option_map obj_of (heap w' !! r) = Some (Edge ed).
Proof.
  apply (face_sides_are_edges meshed_world 8 meshed_block (-1) unit_cube "top" [4; 5; 6; 7] 3);
    try (vm_compute; reflexivity).
  vm_compute. repeat constructor.
Defined.
End BlockFacts.

(** * The classes of [elements.py]: blocks, edges and vertex arithmetic *)
Module LegacyFacts.
Import Elements ElementsFacts ElementsMethods ElementsViews Examples MoreExamples.

Lemma edge_init_no_points (a b : Vertex) (ty : option string) :
  vertex_eq a b = false -> edge_init a b [] ty = inr (mkEdge a b [] ty (-1)).
Proof. intros H. unfold edge_init. rewrite H. reflexivity. Qed.

Lemma edge_init_rows (a b : Vertex) (pts : list (list Q)) (ty : option string) :
  vertex_eq a b = false -> pts <> [] -> Forall (fun r => List.length r = 3%nat) pts ->
  edge_init a b pts ty = inr (mkEdge a b pts ty (-1)).
Proof.
  intros H Hne Hf. unfold edge_init. rewrite H.
  destruct pts as [|r rest]; [contradiction|].
  inversion Hf as [|? ? Hr Hrest]; subst.
  rewrite set_points_stores_input; [reflexivity| | |].
  - simpl. rewrite Hr. apply negb_false_iff, forallb_forall.
    intros s Hs. apply Nat.eqb_eq.
    exact (proj1 (List.Forall_forall _ _) Hrest s Hs).
  - unfold np_size. simpl. rewrite Hr. lia.
  - exact Hr.
Qed.

Lemma vertex_eq_sym (a b : Vertex) : vertex_eq a b = vertex_eq b a.
Proof. unfold vertex_eq. apply MeshFacts.vec_eqb_sym. Qed.

Lemma edge_init_shaped (a b : Vertex) (pts : list (list Q)) (ty : option string) :
  vertex_eq a b = false -> Forall (fun r => List.length r = 3%nat) pts ->
  edge_init a b pts ty = inr (mkEdge a b pts ty (-1)).
Proof.
  intros H Hf. destruct pts as [|r rest].
  - exact (edge_init_no_points a b ty H).
  - apply edge_init_rows; [exact H|discriminate|exact Hf].
Qed.

(** X6. [Edge.invert] of [tetris.elements], for an edge between distinct points
    whose points are rows of three numbers, returns an edge with swapped
    extremities, reversed points, the same [type] and [id] -1; inverting that
    again gives back the extremities, points and [type] of the original. *)
Theorem legacy_invert_twice (e : Edge) :
  vertex_eq (v0 e) (v1 e) = false -> Forall (fun r => List.length r = 3%nat) (points e) ->
  exists e1, invert e = inr e1 /\ v0 e1 = v1 e /\ v1 e1 = v0 e /\
    points e1 = rev (points e) /\ type e1 = type e /\ edge_id e1 = (-1)%Z /\
    invert e1 = inr (mkEdge (v0 e) (v1 e) (points e) (type e) (-1)).
Proof.
  intros Hne Hf. unfold invert.
  rewrite vertex_eq_sym in Hne.
  rewrite (edge_init_shaped _ _ _ _ Hne (List.Forall_rev Hf)).
  eexists. split; [reflexivity|]. simpl. repeat split.
  rewrite vertex_eq_sym in Hne. rewrite rev_involutive.
  exact (edge_init_shaped _ _ _ _ Hne Hf).
Qed.


Lemma py_getitem_nat {A} (xs : list A) (i : Z) (a : A) :
  (0 <= i)%Z -> nth_error xs (Z.to_nat i) = Some a -> py_getitem xs i = inr a.
Proof.
  intros Hi Ha. unfold py_getitem.
  assert (Hlt : (Z.to_nat i < List.length xs)%nat)
    by (apply nth_error_Some; rewrite Ha; discriminate).
  replace (i <? 0)%Z with false by (symmetry; apply Z.ltb_ge; lia).
  replace ((i <? 0) || (Z.of_nat (List.length xs) <=? i))%Z with false
    by (symmetry; apply orb_false_iff; split; [apply Z.ltb_ge|apply Z.leb_gt]; lia).
  rewrite Ha. reflexivity.
Qed.

Lemma nth_error_in_range {A} (xs : list A) (i : Z) :
  (0 <= i < Z.of_nat (List.length xs))%Z -> exists a, nth_error xs (Z.to_nat i) = Some a.
Proof.
  intros H. destruct (nth_error xs (Z.to_nat i)) eqn:E; [eexists; reflexivity|].
  apply nth_error_None in E. lia.
Qed.

Lemma EDGES_ON_AXIS_range :
  Forall (fun p => (0 <= fst p < 8)%Z /\ (0 <= snd p < 8)%Z) (concat EDGES_ON_AXIS).
Proof.
  apply List.Forall_forall. intros p Hp. simpl in Hp.
  repeat destruct Hp as [<-|Hp]; [..|contradiction]; simpl; lia.
Qed.

Lemma append_edges_ok (xs : list Vertex) (ps : list (Z * Z)) (acc : list Edge) :
  Forall (fun p => (0 <= fst p < Z.of_nat (List.length xs))%Z /\
                   (0 <= snd p < Z.of_nat (List.length xs))%Z) ps ->
  Forall (distinct_at xs) ps ->
  exists es, append_edges xs ps acc = (acc ++ es, None) /\ Forall2 (line_between xs) ps es.
Proof.
  revert acc; induction ps as [|[i j] ps IH]; intros acc Hr Hd.
  - exists []. rewrite app_nil_r. split; [reflexivity|constructor].
  - inversion Hr as [|? ? [Hi Hj] Hr']; inversion Hd as [|? ? Hij Hd']; subst.
    simpl in Hi, Hj.
    destruct (nth_error_in_range xs i Hi) as [a Ha].
    destruct (nth_error_in_range xs j Hj) as [c Hc].
    simpl. rewrite (py_getitem_nat xs i a ltac:(lia) Ha), (py_getitem_nat xs j c ltac:(lia) Hc).
    simpl. rewrite (edge_init_no_points a c None (Hij a c Ha Hc)).
    destruct (IH (acc ++ [mkEdge a c [] None (-1)]) Hr' Hd') as (es & He & H2).
    exists (mkEdge a c [] None (-1) :: es). rewrite He, <- app_assoc. split; [reflexivity|].
    constructor; [|exact H2]. unfold line_between. simpl. repeat split; assumption.
Qed.

Lemma append_edges_stop (xs : list Vertex) (pre post : list (Z * Z)) (i j : Z)
    (acc : list Edge) (a c : Vertex) :
  Forall (fun p => (0 <= fst p < Z.of_nat (List.length xs))%Z /\
                   (0 <= snd p < Z.of_nat (List.length xs))%Z) pre ->
  Forall (distinct_at xs) pre ->
  (0 <= i)%Z -> (0 <= j)%Z ->
  nth_error xs (Z.to_nat i) = Some a -> nth_error xs (Z.to_nat j) = Some c -> vertex_eq a c = true ->
  exists es, append_edges xs (pre ++ (i, j) :: post) acc =
    (acc ++ es, Some (ValueError "Zero-length edge. Vertices are at the same point in space."))
    /\ Forall2 (line_between xs) pre es.
Proof.
  revert acc; induction pre as [|[i' j'] pre IH]; intros acc Hr Hd Hi Hj Ha Hc Hac.
  - exists []. rewrite app_nil_r. simpl.
    rewrite (py_getitem_nat xs i a Hi Ha), (py_getitem_nat xs j c Hj Hc). simpl.
    unfold edge_init. rewrite Hac. split; [reflexivity|constructor].
  - inversion Hr as [|? ? [Hi' Hj'] Hr']; inversion Hd as [|? ? Hij Hd']; subst.
    simpl in Hi', Hj'.
    destruct (nth_error_in_range xs i' Hi') as [a' Ha'].
    destruct (nth_error_in_range xs j' Hj') as [c' Hc'].
    simpl. rewrite (py_getitem_nat xs i' a' ltac:(lia) Ha'), (py_getitem_nat xs j' c' ltac:(lia) Hc').
    simpl. rewrite (edge_init_no_points a' c' None (Hij a' c' Ha' Hc')).
    destruct (IH (acc ++ [mkEdge a' c' [] None (-1)]) Hr' Hd' Hi Hj Ha Hc Hac) as (es & He & H2).
    exists (mkEdge a' c' [] None (-1) :: es). rewrite He, <- app_assoc. split; [reflexivity|].
    constructor; [|exact H2]. unfold line_between. simpl. repeat split; assumption.
Qed.

Lemma EDGES_ON_AXIS_range_8 (xs : list Vertex) :
  List.length xs = 8%nat ->
  Forall (fun p => (0 <= fst p < Z.of_nat (List.length xs))%Z /\
                   (0 <= snd p < Z.of_nat (List.length xs))%Z) (concat EDGES_ON_AXIS).
Proof.
  intros H8. rewrite H8. exact EDGES_ON_AXIS_range.
Qed.

(** X7. [Block.set_vertices] of [tetris.elements], given a list or tuple of eight
    vertices where each pair of [EDGES_ON_AXIS] holds two distinct points,
    stores the vertices and twelve new straight edges, one per pair of
    [EDGES_ON_AXIS] in order, joining the vertices at that pair. *)
Theorem legacy_set_vertices_ok (b : Block) (xs : list Vertex) (arg : seq_arg) :
  arg = SeqList xs \/ arg = SeqTuple xs ->
  List.length xs = 8%nat -> Forall (distinct_at xs) (concat EDGES_ON_AXIS) ->
  exists es, set_vertices b arg = (with_edges (with_vertices b xs) es, None) /\
    List.length es = 12%nat /\ Forall2 (line_between xs) (concat EDGES_ON_AXIS) es.
Proof.
  intros Harg H8 Hd.
  destruct (append_edges_ok xs (concat EDGES_ON_AXIS) [] (EDGES_ON_AXIS_range_8 xs H8) Hd)
    as (es & He & H2).
  exists es.
  assert (Hs : set_vertices b arg = (with_edges (with_vertices b xs) es, None)).
  { destruct Harg as [->| ->]; unfold set_vertices; rewrite H8;
      change (vertices (with_edges (with_vertices b xs) [])) with xs;
      cbv beta iota zeta delta [negb Nat.eqb]; rewrite He; reflexivity. }
  split; [exact Hs|]. split; [|exact H2].
  rewrite <- (Forall2_length _ _ _ H2). reflexivity.
Qed.

(** X8. When the first pair of [EDGES_ON_AXIS] whose two vertices are at one
    point is preceded by the pairs [pre], [Block.set_vertices] of
    [tetris.elements] raises the zero-length [ValueError] after storing the
    new vertices and only the edges of [pre]. *)
Theorem legacy_set_vertices_degenerate (b : Block) (xs : list Vertex) (arg : seq_arg)
    (pre post : list (Z * Z)) (i j : Z) (a c : Vertex) :
  arg = SeqList xs \/ arg = SeqTuple xs -> List.length xs = 8%nat ->
  concat EDGES_ON_AXIS = pre ++ (i, j) :: post -> Forall (distinct_at xs) pre ->
  nth_error xs (Z.to_nat i) = Some a -> nth_error xs (Z.to_nat j) = Some c -> vertex_eq a c = true ->
  exists es, set_vertices b arg =
      (with_edges (with_vertices b xs) es,
       Some (ValueError "Zero-length edge. Vertices are at the same point in space.")) /\
    List.length es = List.length pre /\ Forall2 (line_between xs) pre es.
Proof.
  intros Harg H8 Hsplit Hd Ha Hc Hac.
  pose proof (EDGES_ON_AXIS_range_8 xs H8) as Hr. rewrite Hsplit in Hr.
  apply Forall_app in Hr as [Hpre Hpost].
  inversion Hpost as [|? ? [Hi Hj] _]; subst.
  simpl in Hi, Hj.
  destruct (append_edges_stop xs pre post i j [] a c Hpre Hd ltac:(lia) ltac:(lia) Ha Hc Hac)
    as (es & He & H2).
  exists es. split.
  - destruct Harg as [->| ->]; unfold set_vertices; rewrite H8;
      change (vertices (with_edges (with_vertices b xs) [])) with xs;
      cbv beta iota zeta delta [negb Nat.eqb]; rewrite Hsplit, He; reflexivity.
  - split; [|exact H2]. symmetry. exact (Forall2_length _ _ _ H2).
Qed.

(** X9. [Block.set_edge] of [tetris.elements] on a block that has edges raises
    [TypeError] (a [Vertex] is unhashable, and the first comparison builds a
    set of vertices) and leaves the block unchanged. *)
Theorem legacy_set_edge_raises (b : Block) (x y : Vertex) (pts : list (list Q)) (ty : option string) :
  edges b <> [] -> set_edge b x y pts ty = (b, Some (TypeError "unhashable type: 'Vertex'")).
Proof.
  intros H. unfold set_edge. destruct (edges b) as [|e rest]; [contradiction|]. reflexivity.
Qed.

(** X10. [Block.get_edge_by_vertex] of [tetris.elements] never returns an edge:
    after resolving its two arguments it raises [IndexError] on a block
    without edges and [TypeError] (unhashable [Vertex]) otherwise. *)
Theorem legacy_get_edge_by_vertex_raises (b : Block) (x y : varg) :
  get_edge_by_vertex b x y =
    sbind (resolve b x) (fun _ => sbind (resolve b y) (fun _ =>
      inl (match edges b with
           | [] => IndexError "list index out of range"
           | _ :: _ => TypeError "unhashable type: 'Vertex'"
           end))).
Proof.
  unfold get_edge_by_vertex.
  destruct (resolve b x) as [ex|a]; [reflexivity|]. simpl.
  destruct (resolve b y) as [ex|c]; [reflexivity|]. simpl.
  destruct (edges b); reflexivity.
Qed.

Lemma get_edge_by_vertex_inl (b : Block) (x y : varg) : exists ex, get_edge_by_vertex b x y = inl ex.
Proof.
  unfold get_edge_by_vertex.
  destruct (resolve b x) as [ex|a]; [eexists; reflexivity|]. simpl.
  destruct (resolve b y) as [ex|c]; [eexists; reflexivity|]. simpl.
  destruct (edges b); eexists; reflexivity.
Qed.

(** X11. [Block.set_cell_size(value, axis)] of [tetris.elements] with an axis
    always raises and leaves the block, in particular its cell counts,
    unchanged. *)
Theorem legacy_set_cell_size_axis_raises (sqrt : Q -> Q) (b : Block) (value : Q) (axis : Z) :
  exists ex, set_cell_size_axis sqrt b value axis = (b, Some ex).
Proof.
  unfold set_cell_size_axis.
  destruct (py_getitem EDGES_ON_AXIS axis) as [ex|on_axis]; [eexists; reflexivity|]. simpl.
  destruct (py_getitem on_axis 0) as [ex|[id0 id1]]; [eexists; reflexivity|]. simpl.
  destruct (get_edge_by_vertex_inl b (GInt id0) (GInt id1)) as [ex He].
  rewrite He. eexists; reflexivity.
Qed.

(** X13. For any float64 arithmetic, [Vertex.__sub__] with a list or tuple
    returns exactly what [Vertex.__add__] returns with the same list or tuple:
    it adds. With a numpy array or a [Vertex] it returns what [Vertex.__add__]
    returns with the negated operand. *)
Theorem vertex_sub_sequence_adds (fadd : Q -> Q -> Q) (fneg f64 : Q -> Q)
    (v u : Vertex) (r : list Q) :
  vertex_sub fadd fneg f64 v (AList r) = vertex_add fadd fneg f64 v (AList r) /\
  vertex_sub fadd fneg f64 v (ATuple r) = vertex_add fadd fneg f64 v (ATuple r) /\
  vertex_sub fadd fneg f64 v (AArray r) = vertex_add fadd fneg f64 v (AArray (map fneg r)) /\
  vertex_sub fadd fneg f64 v (AVertex u) =
    vertex_add fadd fneg f64 v (AVertex (vertex_of (fvec_neg fneg (coords u)))).
Proof. repeat split. Qed.

Lemma legacy_invert_twice_witness :
  exists e1, invert spline_two_points = inr e1 /\ v0 e1 = v1 spline_two_points /\
    v1 e1 = v0 spline_two_points /\ points e1 = [[1; 2; 0]; [1; 1; 0]]%Q /\
    type e1 = Some "spline" /\ edge_id e1 = (-1)%Z /\
    invert e1 = inr (mkEdge (v0 spline_two_points) (v1 spline_two_points)
                            [[1; 1; 0]; [1; 2; 0]]%Q (Some "spline") (-1)).
Proof.
  apply (legacy_invert_twice spline_two_points).
  - vm_compute. reflexivity.
  - apply List.Forall_cons; [reflexivity|].
    apply List.Forall_cons; [reflexivity|]. apply List.Forall_nil.
Defined.

Lemma legacy_set_vertices_ok_witness :
  exists es, set_vertices cube_block (SeqList (map ev unit_cube)) =
      (with_edges (with_vertices cube_block (map ev unit_cube)) es, None) /\
    List.length es = 12%nat /\ Forall2 (line_between (map ev unit_cube)) (concat EDGES_ON_AXIS) es.
Proof.
  apply (legacy_set_vertices_ok cube_block (map ev unit_cube)).
  - left. reflexivity.
  - reflexivity.
  - apply List.Forall_forall. intros p Hp. simpl in Hp.
    repeat destruct Hp as [<-|Hp]; try contradiction;
      intros a c Ha Hc; simpl in Ha, Hc; injection Ha as <-; injection Hc as <-;
      vm_compute; reflexivity.
Defined.

Lemma legacy_set_vertices_degenerate_witness :
  let xs := map ev [V 0 0 0; V 1 0 0; V 1 1 0; V 0 1 0; V 0 0 1; V 1 0 1; V 0 1 1; V 0 1 1] in
  exists es, set_vertices cube_block (SeqTuple xs) =
      (with_edges (with_vertices cube_block xs) es,
       Some (ValueError "Zero-length edge. Vertices are at the same point in space.")) /\
    List.length es = 2%nat /\ Forall2 (line_between xs) [(0, 1); (2, 3)]%Z es.
Proof.
  intros xs.
  apply (legacy_set_vertices_degenerate cube_block xs (SeqTuple xs) [(0, 1); (2, 3)]%Z
           (skipn 3 (concat EDGES_ON_AXIS)) 6 7 (ev (V 0 1 1)) (ev (V 0 1 1)));
    try reflexivity.
  - right. reflexivity.
  - apply List.Forall_forall. intros p Hp. simpl in Hp.
    repeat destruct Hp as [<-|Hp]; try contradiction;
      intros a c Ha Hc; simpl in Ha, Hc; injection Ha as <-; injection Hc as <-;
      vm_compute; reflexivity.
Defined.

Lemma legacy_set_edge_raises_witness :
  set_edge (with_edges cube_block [spline_0_2]) (ev (V 0 0 0)) (ev (V 2 0 0)) [] (Some "spline") =
    (with_edges cube_block [spline_0_2], Some (TypeError "unhashable type: 'Vertex'")).
Proof. apply legacy_set_edge_raises. discriminate. Defined.

End LegacyFacts.

(** * The registry: geometries, faces and merged patch pairs *)
Module MeshMoreFacts.
Import BlockMesh Views MeshFacts RegistryFacts MoreExamples.

(** The mesh with one more geometry or face. *)
Lemma add_geometry_ref (w : world) (l : loc) (c : cell) :
  heap w !! l = Some c ->
  add_geometry (PyRef l) w =
    match obj_of c with
    | TriSurfaceMesh _ _ =>
        (mkWorld (heap w)
           (let '(mkMesh iv ib ip ie sc gs vs bs es fs ps mp) := the_mesh w in
            mkMesh iv ib ip ie sc (gs ++ [l]) vs bs es fs ps mp), inr tt)
    | _ => (w, inl (TypeError "is not a valid geometry."))
    end.
Proof.
  intros H. unfold add_geometry. unfold_monad. rewrite H.
  destruct (obj_of c); try reflexivity. destruct (the_mesh w); reflexivity.
Qed.

Lemma add_face_ref (w : world) (l : loc) (c : cell) :
  heap w !! l = Some c ->
  add_face (PyRef l) w =
    match obj_of c with
    | Face _ _ =>
        (mkWorld (heap w)
           (let '(mkMesh iv ib ip ie sc gs vs bs es fs ps mp) := the_mesh w in
            mkMesh iv ib ip ie sc gs vs bs es (fs ++ [l]) ps mp), inr tt)
    | _ => (w, inl (TypeError "is not a valid geometry."))
    end.
Proof.
  intros H. unfold add_face. unfold_monad. rewrite H.
  destruct (obj_of c); try reflexivity. destruct (the_mesh w); reflexivity.
Qed.

(** X14. [Mesh.add_geometry] raises [TypeError] and changes nothing for a value
    that is not a geometry; for a [TriSurfaceMesh] it appends it to
    [geometries] without checking the registered ones, so adding it twice
    lists it twice. *)
Theorem add_geometry_spec (w : world) (g : pyval) :
  ((forall l, g = PyRef l -> exists c, heap w !! l = Some c /\
                 match obj_of c with TriSurfaceMesh _ _ => False | _ => True end) ->
   add_geometry g w = (w, inl (TypeError "is not a valid geometry."))) /\
  (forall l n f i, g = PyRef l -> heap w !! l = Some (mkCell (TriSurfaceMesh n f) i) ->
   exists w1, add_geometry g w = (w1, inr tt) /\ heap w1 = heap w /\
     geometries (the_mesh w1) = geometries (the_mesh w) ++ [l] /\
     add_geometry g w1 = (mkWorld (heap w)
       (let '(mkMesh iv ib ip ie sc gs vs bs es fs ps mp) := the_mesh w in
        mkMesh iv ib ip ie sc (gs ++ [l; l]) vs bs es fs ps mp), inr tt)).
Proof.
  split.
  - intros H. destruct g as [l| | | | | |]; try reflexivity.
    destruct (H l eq_refl) as (c & Hc & Ho).
    rewrite (add_geometry_ref w l c Hc). destruct (obj_of c); try reflexivity. contradiction.
  - intros l n f i -> Hl.
    rewrite (add_geometry_ref w l _ Hl). cbn [obj_of].
    eexists. split; [reflexivity|]. split; [reflexivity|].
    split; [destruct (the_mesh w); reflexivity|].
    rewrite (add_geometry_ref (mkWorld (heap w) _) l _ Hl). cbn [obj_of the_mesh heap].
    destruct (the_mesh w). simpl. rewrite <- app_assoc. reflexivity.
Qed.

(** X15. [Mesh.add_face] raises [TypeError] and changes nothing for a value that
    is not a [Face]; for a [Face] it appends it to [faces] without checking
    the registered ones, so adding it twice lists it twice. *)
Theorem add_face_spec (w : world) (f : pyval) :
  ((forall l, f = PyRef l -> exists c, heap w !! l = Some c /\
                 match obj_of c with Face _ _ => False | _ => True end) ->
   add_face f w = (w, inl (TypeError "is not a valid geometry."))) /\
  (forall l vs g i, f = PyRef l -> heap w !! l = Some (mkCell (Face vs g) i) ->
   exists w1, add_face f w = (w1, inr tt) /\ heap w1 = heap w /\
     mesh_faces (the_mesh w1) = mesh_faces (the_mesh w) ++ [l] /\
     add_face f w1 = (mkWorld (heap w)
       (let '(mkMesh iv ib ip ie sc gs vs bs es fs ps mp) := the_mesh w in
        mkMesh iv ib ip ie sc gs vs bs es (fs ++ [l; l]) ps mp), inr tt)).
Proof.
  split.
  - intros H. destruct f as [l| | | | | |]; try reflexivity.
    destruct (H l eq_refl) as (c & Hc & Ho).
    rewrite (add_face_ref w l c Hc). destruct (obj_of c); try reflexivity. contradiction.
  - intros l vs g i -> Hl.
    rewrite (add_face_ref w l _ Hl). cbn [obj_of].
    eexists. split; [reflexivity|]. split; [reflexivity|].
    split; [destruct (the_mesh w); reflexivity|].
    rewrite (add_face_ref (mkWorld (heap w) _) l _ Hl). cbn [obj_of the_mesh heap].
    destruct (the_mesh w). simpl. rewrite <- app_assoc. reflexivity.
Qed.

Lemma register_new (c : category) (l : loc) (w : world) (cl : cell) :
  heap w !! l = Some cl -> (id cl < 0)%Z ->
  if_unregistered c l w =
    (mkWorld (<[l := mkCell (obj_of cl) (mesh_id c (the_mesh w))]> (heap w))
             (mesh_incr c (mesh_append c l (the_mesh w))), inr tt).
Proof.
  intros H Hi. rewrite (if_unregistered_some c l w cl H).
  replace (id cl <? 0)%Z with true by (symmetry; apply Z.ltb_lt; exact Hi). reflexivity.
Qed.

Lemma register_old (c : category) (l : loc) (w : world) (cl : cell) :
  heap w !! l = Some cl -> (0 <= id cl)%Z -> if_unregistered c l w = (w, inr tt).
Proof.
  intros H Hi. rewrite (if_unregistered_some c l w cl H).
  replace (id cl <? 0)%Z with false by (symmetry; apply Z.ltb_ge; exact Hi). reflexivity.
Qed.

Lemma add_pair_tail (master slave : pyval) (w : world) :
  (pp <- alloc (PatchPair master slave) ;;
   m <- get_mesh ;;
   let '(mkMesh iv ib ip ie sc gs vs bs es fs ps mp) := m in
   put_mesh (mkMesh iv ib ip ie sc gs vs bs es fs ps (mp ++ [pp]))) w =
  (mkWorld (<[fresh (dom (heap w)) := mkCell (PatchPair master slave) (-1)]> (heap w))
     (let '(mkMesh iv ib ip ie sc gs vs bs es fs ps mp) := the_mesh w in
      mkMesh iv ib ip ie sc gs vs bs es fs ps (mp ++ [fresh (dom (heap w))])), inr tt).
Proof. unfold_monad. destruct (the_mesh w); reflexivity. Qed.

(** X16. [Mesh.add_mergePatchPairs(master, slave)] called twice for two
    distinct new patches registers each patch once (identities [n] and [n+1])
    and appends two distinct new [PatchPair] objects to [merge_patch_pairs]. *)
Theorem add_mergePatchPairs_twice (w : world) (m s : loc) (cm cs : cell) :
  heap w !! m = Some cm -> heap w !! s = Some cs -> m <> s ->
  (id cm < 0)%Z -> (id cs < 0)%Z -> (0 <= ids_patch (the_mesh w))%Z ->
  exists w1 w2 pp1 pp2,
    add_mergePatchPairs (PyRef m) (PyRef s) w = (w1, inr tt) /\
    add_mergePatchPairs (PyRef m) (PyRef s) w1 = (w2, inr tt) /\
    patches (the_mesh w2) = patches (the_mesh w) ++ [m; s] /\
    ids_patch (the_mesh w2) = (ids_patch (the_mesh w) + 2)%Z /\
    heap w2 !! m = Some (mkCell (obj_of cm) (ids_patch (the_mesh w))) /\
    heap w2 !! s = Some (mkCell (obj_of cs) (ids_patch (the_mesh w) + 1)) /\
    merge_patch_pairs (the_mesh w2) = merge_patch_pairs (the_mesh w) ++ [pp1; pp2] /\
    pp1 <> pp2 /\ heap w !! pp1 = None /\ heap w !! pp2 = None /\
    heap w2 !! pp1 = Some (mkCell (PatchPair (PyRef m) (PyRef s)) (-1)) /\
    heap w2 !! pp2 = Some (mkCell (PatchPair (PyRef m) (PyRef s)) (-1)).
Proof.
  intros Hm Hs Hne Him His Hip.
  destruct w as [h [iv ib ip ie sc gs vs bs es fs ps mp]]. simpl in *.
  set (h1 := <[m := mkCell (obj_of cm) ip]> h).
  set (h2 := <[s := mkCell (obj_of cs) (ip + 1)]> h1).
  set (pp1 := fresh (dom h2)).
  set (h3 := <[pp1 := mkCell (PatchPair (PyRef m) (PyRef s)) (-1)]> h2).
  set (pp2 := fresh (dom h3)).
  set (h4 := <[pp2 := mkCell (PatchPair (PyRef m) (PyRef s)) (-1)]> h3).
  assert (Hs1 : h1 !! s = Some cs) by (unfold h1; rewrite lookup_insert_ne by congruence; exact Hs).
  assert (Hpp1 : h2 !! pp1 = None) by apply fresh_not_in.
  assert (Hpp2 : h3 !! pp2 = None) by apply fresh_not_in.
  assert (Hne12 : pp1 <> pp2).
  { intros E. unfold h3 in Hpp2. rewrite <- E, lookup_insert_eq in Hpp2. discriminate. }
  assert (Hm2 : h2 !! m = Some (mkCell (obj_of cm) ip)).
  { unfold h2. rewrite lookup_insert_ne by congruence. unfold h1. apply lookup_insert_eq. }
  assert (Hs2 : h2 !! s = Some (mkCell (obj_of cs) (ip + 1))) by (unfold h2; apply lookup_insert_eq).
  assert (Hm1 : pp1 <> m) by (intros E; rewrite <- E in Hm2; congruence).
  assert (Hs1' : pp1 <> s) by (intros E; rewrite <- E in Hs2; congruence).
  assert (Hm3 : h3 !! m = Some (mkCell (obj_of cm) ip))
    by (unfold h3; rewrite lookup_insert_ne by congruence; exact Hm2).
  assert (Hs3 : h3 !! s = Some (mkCell (obj_of cs) (ip + 1)))
    by (unfold h3; rewrite lookup_insert_ne by congruence; exact Hs2).
  assert (Hm2' : pp2 <> m) by (intros E; rewrite <- E in Hm3; congruence).
  assert (Hs2' : pp2 <> s) by (intros E; rewrite <- E in Hs3; congruence).
  assert (Hh1 : forall l, h2 !! l = None -> h !! l = None).
  { intros l Hl. unfold h2, h1 in Hl.
    destruct (decide (l = s)) as [->|Hls]; [rewrite lookup_insert_eq in Hl; discriminate|].
    rewrite lookup_insert_ne in Hl by congruence.
    destruct (decide (l = m)) as [->|Hlm]; [rewrite lookup_insert_eq in Hl; discriminate|].
    rewrite lookup_insert_ne in Hl by congruence. exact Hl. }
  exists (mkWorld h3 (mkMesh iv ib (ip + 1 + 1) ie sc gs vs bs es fs ((ps ++ [m]) ++ [s]) (mp ++ [pp1]))).
  exists (mkWorld h4 (mkMesh iv ib (ip + 1 + 1) ie sc gs vs bs es fs ((ps ++ [m]) ++ [s]) ((mp ++ [pp1]) ++ [pp2]))).
  exists pp1, pp2.
  split.
  - unfold add_mergePatchPairs, add_patch.
    rewrite (bind_inr _ _ _ _ _ (register_new CPatch m (mkWorld h _) cm Hm Him)).
    cbn [mesh_id mesh_append mesh_incr the_mesh heap].
    rewrite (bind_inr _ _ _ _ _ (register_new CPatch s (mkWorld h1 _) cs Hs1 His)).
    cbn [mesh_id mesh_append mesh_incr the_mesh heap].
    rewrite add_pair_tail. reflexivity.
  - split.
    + unfold add_mergePatchPairs, add_patch.
      rewrite (bind_inr _ _ _ _ _ (register_old CPatch m (mkWorld h3 _) _ Hm3 Hip)).
      rewrite (bind_inr _ _ _ _ _ (register_old CPatch s (mkWorld h3 _) _ Hs3 ltac:(simpl; lia))).
      rewrite add_pair_tail. reflexivity.
    + simpl. split; [rewrite <- app_assoc; reflexivity|]. split; [lia|].
      split; [unfold h4; rewrite lookup_insert_ne by congruence; exact Hm3|].
      split; [unfold h4; rewrite lookup_insert_ne by congruence; exact Hs3|].
      split; [rewrite <- app_assoc; reflexivity|].
      split; [exact Hne12|].
      split; [exact (Hh1 _ Hpp1)|].
      split.
      { apply Hh1. unfold h3 in Hpp2. rewrite lookup_insert_ne in Hpp2 by congruence. exact Hpp2. }
      split; [unfold h4; rewrite lookup_insert_ne by congruence; unfold h3; apply lookup_insert_eq|].
      unfold h4. apply lookup_insert_eq.
Qed.

Lemma add_geometry_spec_witness :
  add_geometry (PyRef 1) geometry_world =
    (geometry_world, inl (TypeError "is not a valid geometry.")) /\
  exists w1, add_geometry (PyRef 0) geometry_world = (w1, inr tt) /\
    heap w1 = heap geometry_world /\ geometries (the_mesh w1) = [0] /\
    add_geometry (PyRef 0) w1 =
      (mkWorld (heap geometry_world) (mkMesh 0%Z 0%Z 0%Z 0%Z 1%Z [0; 0] [] [] [] [] [] []), inr tt).
Proof.
  split.
  - apply (proj1 (add_geometry_spec geometry_world (PyRef 1))).
    intros l [= <-]. eexists. split; [reflexivity|exact I].
  - exact (proj2 (add_geometry_spec geometry_world (PyRef 0)) 0 "sphere" "sphere.stl" (-1)%Z
             eq_refl eq_refl).
Defined.

Lemma add_face_spec_witness :
  add_face (PyRef 0) geometry_world =
    (geometry_world, inl (TypeError "is not a valid geometry.")) /\
  exists w1, add_face (PyRef 1) geometry_world = (w1, inr tt) /\
    heap w1 = heap geometry_world /\ mesh_faces (the_mesh w1) = [1] /\
    add_face (PyRef 1) w1 =
      (mkWorld (heap geometry_world) (mkMesh 0%Z 0%Z 0%Z 0%Z 1%Z [] [] [] [] [1; 1] [] []), inr tt).
Proof.
  split.
  - apply (proj1 (add_face_spec geometry_world (PyRef 0))).
    intros l [= <-]. eexists. split; [reflexivity|exact I].
  - exact (proj2 (add_face_spec geometry_world (PyRef 1)) 1 [] 0 (-1)%Z eq_refl eq_refl).
Defined.

Lemma add_mergePatchPairs_twice_witness :
  exists w1 w2 pp1 pp2,
    add_mergePatchPairs (PyRef 0) (PyRef 1) patches_world = (w1, inr tt) /\
    add_mergePatchPairs (PyRef 0) (PyRef 1) w1 = (w2, inr tt) /\
    patches (the_mesh w2) = patches (the_mesh patches_world) ++ [0; 1] /\
    ids_patch (the_mesh w2) = (ids_patch (the_mesh patches_world) + 2)%Z /\
    heap w2 !! 0 = Some (mkCell (Patch (mkPatch "inlet" (PyStr "patch") (PyList [])))
                                (ids_patch (the_mesh patches_world))) /\
    heap w2 !! 1 = Some (mkCell (Patch (mkPatch "outlet" (PyStr "patch") (PyList [])))
                                (ids_patch (the_mesh patches_world) + 1)) /\
    merge_patch_pairs (the_mesh w2) = merge_patch_pairs (the_mesh patches_world) ++ [pp1; pp2] /\
    pp1 <> pp2 /\ heap patches_world !! pp1 = None /\ heap patches_world !! pp2 = None /\
    heap w2 !! pp1 = Some (mkCell (PatchPair (PyRef 0) (PyRef 1)) (-1)) /\
    heap w2 !! pp2 = Some (mkCell (PatchPair (PyRef 0) (PyRef 1)) (-1)).
Proof.
  apply (add_mergePatchPairs_twice patches_world 0 1
           (mkCell (Patch (mkPatch "inlet" (PyStr "patch") (PyList []))) (-1))
           (mkCell (Patch (mkPatch "outlet" (PyStr "patch") (PyList []))) (-1)));
    try (vm_compute; reflexivity); try (vm_compute; lia).
  discriminate.
Defined.
End MeshMoreFacts.
